(** * Chingy Chef: the view controller and recipe session of src/index.tsx

    A shallow embedding of the browser-side program: the parsed JSON
    response of the content-generation service, the JavaScript coercions
    the code relies on ([&&] truthiness, [.length], [>], [-], [===],
    indexing, the string conversion of [textContent] and of
    [SpeechSynthesisUtterance]), the four view containers and their
    [hidden] class, the error container, the speech-synthesis queue, and
    the event handlers that mutate the module-level state ([recipeSteps],
    [currentStepIndex]).

    Modelling choices:
    - A JSON number is the rational number its literal denotes ([Q]);
      rounding to a double and overflow to [Infinity] are not modelled.
      The step index only ever moves by 1 from 0, so it is an integer
      ([Z]).
    - Strings are Rocq strings; a character stands for one UTF-16 code unit
      in the range U+0000..U+00FF, so [String.length] is JavaScript's
      [.length].
    - [JSON.parse] is not re-implemented: a completed request is either an
      exception (network failure, missing [response.text], parse failure)
      or the parsed JSON value.
    - A parsed object has [Object.prototype] as prototype, and none of its
      own properties is callable. Converting it to a primitive therefore
      throws a [TypeError] exactly when it has an own [toString] key (the
      own, non-callable [toString] is skipped, and [valueOf] yields no
      primitive); otherwise it renders as "[object Object]".
    - What the engine leaves to its own algorithms is a parameter (record
      [engine]): ToNumber on a string, Number::toString, and the message
      of the [TypeError] a failed conversion raises.
    - An exception thrown inside an event handler ends the handler; the
      assignments made before it stay. *)

From Stdlib Require Import ZArith QArith Lqa String Ascii List Bool Lia.
From Stdlib Require Import DecimalString.
Import ListNotations.
Open Scope string_scope.
Open Scope Z_scope.
Set Warnings "-register-all".

(** ** JSON values as returned by [JSON.parse] *)

Inductive json : Type :=
  | JNull
  | JBool (b : bool)
  | JNum (q : Q)
  | JStr (s : string)
  | JArr (items : list json)
  | JObj (fields : list (string * json)).

(** A JavaScript value that may be [undefined]: [None] is [undefined]. *)
Definition jsval := option json.

(** A JavaScript number value: [NaN] or a (finite) number. *)
Inductive jsnum := NaN | Num (q : Q).

(** Property lookup on a parsed object: with duplicate keys [JSON.parse]
    keeps the last one. *)
Definition lookup (k : string) (fields : list (string * json)) : jsval :=
  fold_left (fun acc kv => if String.eqb k (fst kv) then Some (snd kv) else acc)
    fields None.

(** JavaScript truthiness of a defined value ([0] and [-0] are falsy). *)
Definition truthy (v : json) : bool :=
  match v with
  | JNull => false
  | JBool b => b
  | JNum q => negb (Qeq_bool q 0%Q)
  | JStr s => negb (String.eqb s "")
  | JArr _ => true
  | JObj _ => true
  end.

Definition truthy_js (v : jsval) : bool :=
  match v with None => false | Some j => truthy j end.

(** Decimal rendering of an integer, as [Number.prototype.toString]; used
    for the property key [String(i)] of an integer index [i]. *)
Definition Z_to_decimal (z : Z) : string := NilZero.string_of_int (Z.to_int z).

(** [recipeData.steps] on a truthy value: only a parsed object can carry an
    own [steps] property. *)
Definition steps_prop (v : json) : jsval :=
  match v with
  | JObj fields => lookup "steps" fields
  | _ => None
  end.

(** [v.length] on a truthy value (the callers never pass [null]). *)
Definition length_prop (v : json) : jsval :=
  match v with
  | JStr s => Some (JNum (inject_Z (Z.of_nat (String.length s))))
  | JArr items => Some (JNum (inject_Z (Z.of_nat (List.length items))))
  | JObj fields => lookup "length" fields
  | _ => None
  end.

(** [v[i]] for an integer index [i]. *)
Definition index_at (v : json) (i : Z) : jsval :=
  match v with
  | JArr items => if i <? 0 then None else nth_error items (Z.to_nat i)
  | JStr s =>
      if i <? 0 then None
      else match String.get (Z.to_nat i) s with
           | Some c => Some (JStr (String c EmptyString))
           | None => None
           end
  | JObj fields => lookup (Z_to_decimal i) fields
  | _ => None
  end.

(** [a < b] on numbers. *)
Definition qlt (a b : Q) : bool := negb (Qle_bool b a).

(** ** String trimming ([String.prototype.trim]) on code units 0..255 *)

Definition is_js_space (c : ascii) : bool :=
  let n := nat_of_ascii c in
  (Nat.eqb n 9 || Nat.eqb n 10 || Nat.eqb n 11 || Nat.eqb n 12 || Nat.eqb n 13
   || Nat.eqb n 32 || Nat.eqb n 160)%bool.

Fixpoint drop_spaces (l : list ascii) : list ascii :=
  match l with
  | [] => []
  | c :: rest => if is_js_space c then drop_spaces rest else l
  end.

Definition trim (s : string) : string :=
  string_of_list_ascii
    (rev (drop_spaces (rev (drop_spaces (list_ascii_of_string s))))).

(** ** The DOM surface the program touches *)

(** The four containers toggled by [showView], by the presence of their
    [hidden] class. *)
Record views := mkViews {
  inputHidden : bool;
  recipeHidden : bool;
  loadingHidden : bool;
  errorHidden : bool
}.

Inductive view_name := VInput | VRecipe | VLoading | VError.

(** Children of [#error-message]: a bare text node (from [textContent] or
    the page markup), a paragraph, or the "Try Again" button created by
    [showError]. *)
Inductive enode :=
  | EText (s : string)
  | EPara (s : string)
  | ETryAgain.

(** A thrown value: an [Error] (of any subclass) with its message, or
    anything else. *)
Inductive thrown :=
  | ThrownError (message : string)
  | ThrownOther.

(** How one [generateContent] request completes: an exception thrown on the
    way (network failure, [response.text] missing, [JSON.parse] failure), or
    the value [JSON.parse(response.text.trim())] returned. *)
Inductive fetch_result :=
  | FetchThrows (e : thrown)
  | FetchParsed (recipeData : json).

Record state := mkState {
  view : views;
  errorMessageChildren : list enode;
  dishInputValue : string;
  (** the value last assigned to [recipeStepText.textContent] *)
  recipeStepText : jsval;
  prevStepBtnDisabled : bool;
  nextStepBtnDisabled : bool;
  recipeSteps : json;
  currentStepIndex : Z;
  (** ['speechSynthesis' in window]: fixed by the browser. *)
  speechSupported : bool;
  (** utterances queued or playing in [speechSynthesis] *)
  speechQueue : list jsval;
  (** every text handed to [speechSynthesis.speak], oldest first *)
  spokenLog : list jsval;
  (** every dish name a [generateContent] request was issued for *)
  requestLog : list string
}.

Definition set_view (v : views) (st : state) : state :=
  mkState v st.(errorMessageChildren) st.(dishInputValue) st.(recipeStepText)
    st.(prevStepBtnDisabled) st.(nextStepBtnDisabled) st.(recipeSteps)
    st.(currentStepIndex) st.(speechSupported) st.(speechQueue) st.(spokenLog)
    st.(requestLog).

Definition set_error_children (c : list enode) (st : state) : state :=
  mkState st.(view) c st.(dishInputValue) st.(recipeStepText)
    st.(prevStepBtnDisabled) st.(nextStepBtnDisabled) st.(recipeSteps)
    st.(currentStepIndex) st.(speechSupported) st.(speechQueue) st.(spokenLog)
    st.(requestLog).

Definition set_dish_input (s : string) (st : state) : state :=
  mkState st.(view) st.(errorMessageChildren) s st.(recipeStepText)
    st.(prevStepBtnDisabled) st.(nextStepBtnDisabled) st.(recipeSteps)
    st.(currentStepIndex) st.(speechSupported) st.(speechQueue) st.(spokenLog)
    st.(requestLog).

Definition set_step_text (text : jsval) (st : state) : state :=
  mkState st.(view) st.(errorMessageChildren) st.(dishInputValue) text
    st.(prevStepBtnDisabled) st.(nextStepBtnDisabled) st.(recipeSteps)
    st.(currentStepIndex) st.(speechSupported) st.(speechQueue) st.(spokenLog)
    st.(requestLog).

Definition set_prev_disabled (b : bool) (st : state) : state :=
  mkState st.(view) st.(errorMessageChildren) st.(dishInputValue)
    st.(recipeStepText) b st.(nextStepBtnDisabled) st.(recipeSteps)
    st.(currentStepIndex) st.(speechSupported) st.(speechQueue) st.(spokenLog)
    st.(requestLog).

Definition set_next_disabled (b : bool) (st : state) : state :=
  mkState st.(view) st.(errorMessageChildren) st.(dishInputValue)
    st.(recipeStepText) st.(prevStepBtnDisabled) b st.(recipeSteps)
    st.(currentStepIndex) st.(speechSupported) st.(speechQueue) st.(spokenLog)
    st.(requestLog).

Definition set_recipe_steps (steps : json) (st : state) : state :=
  mkState st.(view) st.(errorMessageChildren) st.(dishInputValue)
    st.(recipeStepText) st.(prevStepBtnDisabled) st.(nextStepBtnDisabled)
    steps st.(currentStepIndex) st.(speechSupported) st.(speechQueue)
    st.(spokenLog) st.(requestLog).

Definition set_step_index (i : Z) (st : state) : state :=
  mkState st.(view) st.(errorMessageChildren) st.(dishInputValue)
    st.(recipeStepText) st.(prevStepBtnDisabled) st.(nextStepBtnDisabled)
    st.(recipeSteps) i st.(speechSupported) st.(speechQueue)
    st.(spokenLog) st.(requestLog).

Definition set_speech (q : list jsval) (log : list jsval) (st : state) : state :=
  mkState st.(view) st.(errorMessageChildren) st.(dishInputValue)
    st.(recipeStepText) st.(prevStepBtnDisabled) st.(nextStepBtnDisabled)
    st.(recipeSteps) st.(currentStepIndex) st.(speechSupported) q log
    st.(requestLog).

Definition log_request (dish : string) (st : state) : state :=
  mkState st.(view) st.(errorMessageChildren) st.(dishInputValue)
    st.(recipeStepText) st.(prevStepBtnDisabled) st.(nextStepBtnDisabled)
    st.(recipeSteps) st.(currentStepIndex) st.(speechSupported)
    st.(speechQueue) st.(spokenLog) (st.(requestLog) ++ [dish]).

(** How a function that may throw ends: normally, or with an exception,
    in both cases with the state its assignments left. *)
Inductive outcome :=
  | Done (st : state)
  | Threw (e : thrown) (st : state).

(** The state after the call, however it ended. *)
Definition final (o : outcome) : state :=
  match o with Done st => st | Threw _ st => st end.

(** ** [showView] and [showError] *)

(** [showView]: add [hidden] to all four containers, then remove it from
    the one named. *)
Definition showView (v : view_name) (st : state) : state :=
  let all := mkViews true true true true in
  let shown :=
    match v with
    | VInput => mkViews false all.(recipeHidden) all.(loadingHidden) all.(errorHidden)
    | VRecipe => mkViews all.(inputHidden) false all.(loadingHidden) all.(errorHidden)
    | VLoading => mkViews all.(inputHidden) all.(recipeHidden) false all.(errorHidden)
    | VError => mkViews all.(inputHidden) all.(recipeHidden) all.(loadingHidden) false
    end in
  set_view shown st.

(** [showError]: set [textContent], show the error view, clear the
    container, then append the paragraph and the "Try Again" button. *)
Definition showError (message : string) (st : state) : state :=
  let st1 := set_error_children
    [EText ("Oops! Something went wrong. " ++ message ++ ". Please try again.")] st in
  let st2 := showView VError st1 in
  let st3 := set_error_children [] st2 in
  let st4 := set_error_children
    (st3.(errorMessageChildren) ++ [EPara ("Oops! Something went wrong: " ++ message ++ ".")]) st3 in
  set_error_children (st4.(errorMessageChildren) ++ [ETryAgain]) st4.

(** [backButton.onclick]: show the input view, then empty the error
    container. *)
Definition tryAgainClick (st : state) : state :=
  set_error_children [] (showView VInput st).

(** ** The engine's own algorithms *)

Record engine := mkEngine {
  (** ToNumber applied to a string ([None]: NaN) *)
  StringToNumber : string -> option Q;
  (** Number::toString *)
  NumberToString : Q -> string;
  (** the message of the [TypeError] raised when a value cannot be
      converted to a primitive *)
  TypeErrorMessage : string
}.

(** ** Coercions, speech, and the event handlers *)

Section Runtime.

Variable E : engine.

(** ToString of a defined value ([None]: the [TypeError] it throws).
    Arrays go through [Array.prototype.join(",")], where [null] elements
    render as "" and a throwing element aborts the join. *)
Fixpoint to_js_string (v : json) : option string :=
  match v with
  | JNull => Some "null"
  | JBool true => Some "true"
  | JBool false => Some "false"
  | JNum q => Some (NumberToString E q)
  | JStr s => Some s
  | JArr items =>
      let fix join (l : list json) : option string :=
        match l with
        | [] => Some ""
        | [x] => match x with JNull => Some "" | _ => to_js_string x end
        | x :: rest =>
            match (match x with JNull => Some "" | _ => to_js_string x end),
                  join rest with
            | Some a, Some b => Some (a ++ "," ++ b)
            | _, _ => None
            end
        end in
      join items
  | JObj fields =>
      match lookup "toString" fields with
      | Some _ => None
      | None => Some "[object Object]"
      end
  end.

(** Whether handing [v] to a DOMString parameter converts without
    throwing: the nullable [textContent] setter takes [null] and
    [undefined] as the empty string, the optional [text] of
    [new SpeechSynthesisUtterance] takes [undefined] as absent and [null]
    as "null"; every other value goes through ToString. *)
Definition converts (v : jsval) : bool :=
  match v with
  | None => true
  | Some j => match to_js_string j with Some _ => true | None => false end
  end.

(** ToNumber on a possibly undefined value ([None]: the [TypeError] thrown
    by the conversion of an object or array to a primitive). *)
Definition to_number (v : jsval) : option jsnum :=
  let of_string s := match StringToNumber E s with Some q => Num q | None => NaN end in
  match v with
  | None => Some NaN
  | Some JNull => Some (Num 0%Q)
  | Some (JBool b) => Some (Num (if b then 1%Q else 0%Q))
  | Some (JNum q) => Some (Num q)
  | Some (JStr s) => Some (of_string s)
  | Some j =>
      match to_js_string j with
      | Some s => Some (of_string s)
      | None => None
      end
  end.

(** [v > 0] ([None]: the conversion of [v] throws) *)
Definition gt_zero (v : jsval) : option bool :=
  match to_number v with
  | Some (Num q) => Some (qlt 0%Q q)
  | Some NaN => Some false
  | None => None
  end.

(** [v === 0] (no conversion) *)
Definition strict_eq_zero (v : jsval) : bool :=
  match v with Some (JNum q) => Qeq_bool q 0%Q | _ => false end.

(** [i === len - 1] for a number [i] ([None]: [len - 1] throws) *)
Definition eq_len_minus_one (i : Z) (len : jsval) : option bool :=
  match to_number len with
  | Some (Num n) => Some (Qeq_bool (inject_Z i) (n - 1))
  | Some NaN => Some false
  | None => None
  end.

(** [i < len - 1] for a number [i] ([None]: [len - 1] throws) *)
Definition lt_len_minus_one (i : Z) (len : jsval) : option bool :=
  match to_number len with
  | Some (Num n) => Some (qlt (inject_Z i) (n - 1))
  | Some NaN => Some false
  | None => None
  end.

(** The [TypeError] a failed conversion raises. *)
Definition type_error : thrown := ThrownError (TypeErrorMessage E).

(** [speechSynthesis.cancel()] as written at a call site without the
    support test: [None] is the ReferenceError thrown when the browser has
    no [speechSynthesis]. *)
Definition speech_cancel (st : state) : option state :=
  if st.(speechSupported) then Some (set_speech [] st.(spokenLog) st) else None.

(** [speak]: cancel, build the utterance (whose constructor converts the
    text), then queue it. *)
Definition speak (text : jsval) (st : state) : outcome :=
  if st.(speechSupported) then
    let st1 := set_speech [] st.(spokenLog) st in
    if converts text then
      Done (set_speech (st1.(speechQueue) ++ [text]) (st1.(spokenLog) ++ [text]) st1)
    else Threw type_error st1
  else Done st.

(** [updateRecipeStepUI] *)
Definition updateRecipeStepUI (st : state) : outcome :=
  if strict_eq_zero (length_prop st.(recipeSteps)) then Done st
  else
    let currentStep := index_at st.(recipeSteps) st.(currentStepIndex) in
    (* recipeStepText.textContent = currentStep *)
    if negb (converts currentStep) then Threw type_error st
    else
      let st1 := set_step_text currentStep st in
      let st2 := set_prev_disabled (st.(currentStepIndex) =? 0) st1 in
      match eq_len_minus_one st.(currentStepIndex) (length_prop st.(recipeSteps)) with
      | Some b => speak currentStep (set_next_disabled b st2)
      | None => Threw type_error st2
      end.

(** How the test [recipeData && recipeData.steps && recipeData.steps.length > 0]
    ends: accepted with [recipeData.steps], rejected, or thrown by the
    conversion in [> 0]. *)
Inductive guard_result :=
  | GAccept (steps : json)
  | GReject
  | GThrow.

Definition guard_outcome (recipeData : json) : guard_result :=
  if truthy recipeData then
    match steps_prop recipeData with
    | Some steps =>
        if truthy steps then
          match gt_zero (length_prop steps) with
          | Some true => GAccept steps
          | Some false => GReject
          | None => GThrow
          end
        else GReject
    | None => GReject
    end
  else GReject.

(** The guard as a test: [Some steps] when it lets the value through. *)
Definition recipe_guard (recipeData : json) : option json :=
  match guard_outcome recipeData with
  | GAccept steps => Some steps
  | _ => None
  end.

(** [error instanceof Error ? error.message : "An unknown error occurred"] *)
Definition error_message (e : thrown) : string :=
  match e with
  | ThrownError m => m
  | ThrownOther => "An unknown error occurred"
  end.

(** [getRecipe] up to its [await]: the loading view, then the request. *)
Definition getRecipe_start (dishName : string) (st : state) : state :=
  log_request dishName (showView VLoading st).

(** [getRecipe] after its [await]: the [try] body and its [catch]. An
    exception inside [updateRecipeStepUI] reaches the [catch] with
    [recipeSteps] and [currentStepIndex] already assigned. *)
Definition getRecipe_finish (r : fetch_result) (st : state) : state :=
  match r with
  | FetchThrows e => showError (error_message e) st
  | FetchParsed recipeData =>
      match guard_outcome recipeData with
      | GAccept steps =>
          let st1 := set_step_index 0 (set_recipe_steps steps st) in
          match updateRecipeStepUI st1 with
          | Done st2 => showView VRecipe st2
          | Threw e st2 => showError (error_message e) st2
          end
      | GReject => showError "Could not find a recipe for that dish." st
      | GThrow => showError (error_message type_error) st
      end
  end.

(** [handleFormSubmit] *)
Definition handleFormSubmit (st : state) : state :=
  let dishName := trim st.(dishInputValue) in
  if negb (String.eqb dishName "") then getRecipe_start dishName st else st.

(** [handleNextStep]; a throwing comparison ends the handler at once. *)
Definition handleNextStep (st : state) : state :=
  match lt_len_minus_one st.(currentStepIndex) (length_prop st.(recipeSteps)) with
  | Some true =>
      final (updateRecipeStepUI (set_step_index (st.(currentStepIndex) + 1) st))
  | Some false => st
  | None => st
  end.

(** [handlePrevStep] *)
Definition handlePrevStep (st : state) : state :=
  if 0 <? st.(currentStepIndex) then
    final (updateRecipeStepUI (set_step_index (st.(currentStepIndex) - 1) st))
  else st.

(** [handleRepeatStep] *)
Definition handleRepeatStep (st : state) : state := final (updateRecipeStepUI st).

(** [handleStartOver]: an exception thrown by [speechSynthesis.cancel()]
    leaves the assignments made before it in place and skips the rest. *)
Definition handleStartOver (st : state) : state :=
  let st1 := set_dish_input "" (set_step_index 0 (set_recipe_steps (JArr []) st)) in
  match speech_cancel st1 with
  | Some st2 => showView VInput st2
  | None => st1
  end.

(** The events the page reacts to once [initialize] has registered the
    handlers. [FetchDone] completes a request; it is allowed at any time,
    which only adds behaviours. *)
Inductive event :=
  | TypeDish (s : string)
  | Submit
  | FetchDone (r : fetch_result)
  | ClickNext
  | ClickPrev
  | ClickRepeat
  | ClickStartOver
  | ClickTryAgain
  | SpeechEnd.

Definition is_try_again (n : enode) : bool :=
  match n with ETryAgain => true | _ => false end.

Definition step (e : event) (st : state) : state :=
  match e with
  | TypeDish s => set_dish_input s st
  | Submit => handleFormSubmit st
  | FetchDone r => getRecipe_finish r st
  | ClickNext => handleNextStep st
  | ClickPrev => handlePrevStep st
  | ClickRepeat => handleRepeatStep st
  | ClickStartOver => handleStartOver st
  | ClickTryAgain =>
      (* only a button present in the container can be clicked *)
      if existsb is_try_again st.(errorMessageChildren) then tryAgainClick st
      else st
  | SpeechEnd => set_speech (tl st.(speechQueue)) st.(spokenLog) st
  end.

Fixpoint run (es : list event) (st : state) : state :=
  match es with
  | [] => st
  | e :: rest => run rest (step e st)
  end.

(** The transitions the spec calls successful: a load that passes the
    guard, a [next] or [previous] away from the boundary, a [repeat] while
    steps are loaded. *)
Definition successful (e : event) (st : state) : bool :=
  match e with
  | FetchDone (FetchParsed d) => if recipe_guard d then true else false
  | ClickNext =>
      match lt_len_minus_one st.(currentStepIndex) (length_prop st.(recipeSteps)) with
      | Some true => true
      | _ => false
      end
  | ClickPrev => 0 <? st.(currentStepIndex)
  | ClickRepeat => negb (strict_eq_zero (length_prop st.(recipeSteps)))
  | _ => false
  end.

End Runtime.

(** The page markup (index.html, not part of src/): what the DOM holds
    before any script runs. The program overwrites the view classes in
    [initialize]; the other fields are whatever the markup says. *)
Record markup := mkMarkup {
  m_views : views;
  m_errorText : list string;
  m_dishInput : string;
  m_stepText : jsval;
  m_prevDisabled : bool;
  m_nextDisabled : bool
}.

(** The page as loaded, before [initialize]: the module-level
    [recipeSteps = []] and [currentStepIndex = 0], a fresh speech queue and
    no request issued yet. *)
Definition page_load (m : markup) (speech : bool) : state :=
  mkState m.(m_views) (map EText m.(m_errorText)) m.(m_dishInput) m.(m_stepText)
    m.(m_prevDisabled) m.(m_nextDisabled) (JArr []) 0 speech [] [] [].

(** [initialize]: without an API key it reports the error and registers no
    handler; with one it shows the input view. *)
Definition initialize (apiKeySet : bool) (m : markup) (speech : bool) : state :=
  if apiKeySet then showView VInput (page_load m speech)
  else showError "API_KEY is not configured." (page_load m speech).

(** The views whose container is not hidden. *)
Definition shown_views (vs : views) : list view_name :=
  (if vs.(inputHidden) then [] else [VInput]) ++
  (if vs.(recipeHidden) then [] else [VRecipe]) ++
  (if vs.(loadingHidden) then [] else [VLoading]) ++
  (if vs.(errorHidden) then [] else [VError]).

(** The session invariant on the step index: non-negative; the length of
    [recipeSteps] converts to a number without throwing; and the index is
    0 or below that number. *)
Definition index_inv (E : engine) (st : state) : Prop :=
  0 <= st.(currentStepIndex) /\
  exists nv, to_number E (length_prop st.(recipeSteps)) = Some nv /\
    (st.(currentStepIndex) = 0 \/
     exists n, nv = Num n /\ (inject_Z st.(currentStepIndex) < n)%Q).

(** A concrete [StringToNumber] for running examples: decimal digit
    strings only, everything else NaN. *)
Definition digits_to_number (s : string) : option Q :=
  match NilZero.uint_of_string s with
  | Some u => Some (inject_Z (Z.of_N (N.of_uint u)))
  | None => None
  end.

(** A concrete engine for running examples: digit strings as numbers,
    integers rendered in decimal (a fraction by its numerator and
    denominator), and V8's message for a failed conversion. *)
Definition example_engine : engine :=
  mkEngine digits_to_number
    (fun q => if Pos.eqb (Qden q) 1 then Z_to_decimal (Qnum q)
              else Z_to_decimal (Qnum q) ++ "/" ++ Z_to_decimal (Z.pos (Qden q)))
    "Cannot convert object to primitive value".

(** A page whose markup leaves every container visible and empty. *)
Definition blank_page : markup :=
  mkMarkup (mkViews false false false false) [] "" None false false.

(** The scenario of the spec. *)
Definition omelette : json :=
  JObj [("steps", JArr [JStr "Crack eggs"; JStr "Whisk"; JStr "Cook"])].

(** Type a dish name, submit, and let the request complete with [resp]. *)
Definition load_events (resp : json) : list event :=
  [TypeDish "omelette"; Submit; FetchDone (FetchParsed resp)].

(** ** Frame lemmas: what each helper leaves alone *)

(** The fields of the recipe session and of the surrounding page that
    [speak], [updateRecipeStepUI], [showView] and [showError] never write. *)
Definition same_session (st st' : state) : Prop :=
  st'.(recipeSteps) = st.(recipeSteps) /\
  st'.(currentStepIndex) = st.(currentStepIndex) /\
  st'.(dishInputValue) = st.(dishInputValue) /\
  st'.(speechSupported) = st.(speechSupported) /\
  st'.(requestLog) = st.(requestLog).

(** The step display is in step with the session: what
    [updateRecipeStepUI] writes whenever steps are loaded and the current
    step converts to a string. *)
Definition ui_inv (E : engine) (st : state) : Prop :=
  strict_eq_zero (length_prop st.(recipeSteps)) = false ->
  converts E (index_at st.(recipeSteps) st.(currentStepIndex)) = true ->
  st.(recipeStepText) = index_at st.(recipeSteps) st.(currentStepIndex) /\
  st.(prevStepBtnDisabled) = (st.(currentStepIndex) =? 0) /\
  eq_len_minus_one E st.(currentStepIndex) (length_prop st.(recipeSteps)) =
    Some st.(nextStepBtnDisabled).

Ltac frame := repeat split; reflexivity.

(** ** Arithmetic on the numbers the code compares *)

Lemma qlt_true (a b : Q) : qlt a b = true -> (a < b)%Q.
Proof.
  unfold qlt; intros H; apply negb_true_iff in H.
  apply Qnot_le_lt; intros H'; apply Qle_bool_iff in H'; congruence.
Qed.

Lemma qlt_intro (a b : Q) : (a < b)%Q -> qlt a b = true.
Proof.
  intros H; unfold qlt; destruct (Qle_bool b a) eqn:E; [|reflexivity].
  apply Qle_bool_iff in E; exfalso; apply (Qlt_not_le _ _ H E).
Qed.

Lemma qlt_false (a b : Q) : qlt a b = false -> (b <= a)%Q.
Proof. unfold qlt; intros H; apply negb_false_iff in H; apply Qle_bool_iff; exact H. Qed.

Lemma qlt_inject (a b : Z) : qlt (inject_Z a) (inject_Z b - 1) = (a <? b - 1).
Proof.
  apply Bool.eq_iff_eq_true; rewrite Z.ltb_lt; split; intros H.
  - apply qlt_true in H; unfold Qlt in H; simpl in H; lia.
  - apply qlt_intro; unfold Qlt; simpl; lia.
Qed.

Lemma qeq_inject (a b : Z) : Qeq_bool (inject_Z a) (inject_Z b - 1) = (a =? b - 1).
Proof.
  apply Bool.eq_iff_eq_true; rewrite Z.eqb_eq, Qeq_bool_iff; split; intros H.
  - unfold Qeq in H; simpl in H; lia.
  - unfold Qeq; simpl; lia.
Qed.

Lemma inject_Z_succ (i : Z) : inject_Z (i + 1) = (inject_Z i + 1)%Q.
Proof. rewrite inject_Z_plus; reflexivity. Qed.

Lemma inject_Z_pred (i : Z) : inject_Z (i - 1) = (inject_Z i - 1)%Q.
Proof. unfold Z.sub; rewrite inject_Z_plus; reflexivity. Qed.

Lemma inject_Z_nonneg (i : Z) : 0 <= i -> (0 <= inject_Z i)%Q.
Proof. intros H; rewrite Zle_Qle in H; exact H. Qed.

(** ** Frame lemmas: what each helper leaves alone *)

Lemma speak_frame E (t : jsval) (st : state) :
  let st' := final (speak E t st) in
  same_session st st' /\ st'.(view) = st.(view) /\
  st'.(errorMessageChildren) = st.(errorMessageChildren) /\
  st'.(recipeStepText) = st.(recipeStepText) /\
  st'.(prevStepBtnDisabled) = st.(prevStepBtnDisabled) /\
  st'.(nextStepBtnDisabled) = st.(nextStepBtnDisabled).
Proof.
  unfold speak; destruct (speechSupported st) eqn:Es; [destruct (converts E t)|];
    cbn; frame.
Qed.

Lemma updateRecipeStepUI_frame E (st : state) :
  let st' := final (updateRecipeStepUI E st) in
  same_session st st' /\ st'.(view) = st.(view) /\
  st'.(errorMessageChildren) = st.(errorMessageChildren).
Proof.
  unfold updateRecipeStepUI; cbv zeta.
  destruct (strict_eq_zero _); [frame|].
  destruct (converts E _); cbn [negb]; [|frame].
  destruct (eq_len_minus_one E _ _) as [b|]; [|frame].
  match goal with |- context [speak E ?t ?s] =>
    destruct (speak_frame E t s) as ((H1 & H2 & H3 & H4 & H5) & H6 & H7 & _) end.
  repeat split;
    [rewrite H1|rewrite H2|rewrite H3|rewrite H4|rewrite H5|rewrite H6|rewrite H7];
    reflexivity.
Qed.

Lemma updateRecipeStepUI_session E (st : state) :
  same_session st (final (updateRecipeStepUI E st)).
Proof. apply updateRecipeStepUI_frame. Qed.

Lemma showView_session (v : view_name) (st : state) : same_session st (showView v st).
Proof. destruct v; frame. Qed.

Lemma showError_session (m : string) (st : state) : same_session st (showError m st).
Proof. frame. Qed.

Lemma showError_shown (m : string) (st : state) :
  shown_views (showError m st).(view) = [VError].
Proof. reflexivity. Qed.

Lemma showView_shown (v : view_name) (st : state) :
  shown_views (showView v st).(view) = [v].
Proof. destruct v; reflexivity. Qed.

(** ** C6: [showView] *)

(** C6: for each of the four view names, [showView] leaves exactly that
    view visible and the other three hidden, touches nothing else, and a
    second call with the same name changes nothing. *)
Theorem showView_exclusive_idempotent :
  forall (v : view_name) (st : state),
    shown_views (showView v st).(view) = [v] /\
    same_session st (showView v st) /\
    (showView v st).(errorMessageChildren) = st.(errorMessageChildren) /\
    showView v (showView v st) = showView v st.
Proof.
  intros v st; split; [apply showView_shown|].
  split; [apply showView_session|].
  destruct v; split; reflexivity.
Qed.

(** ** The guard and the outcome of [updateRecipeStepUI] *)

Lemma recipe_guard_accept E (d steps : json) :
  recipe_guard E d = Some steps -> guard_outcome E d = GAccept steps.
Proof. unfold recipe_guard; destruct (guard_outcome E d); congruence. Qed.

Lemma guard_length_positive E (d steps : json) :
  guard_outcome E d = GAccept steps -> gt_zero E (length_prop steps) = Some true.
Proof.
  unfold guard_outcome; destruct (truthy d); [|discriminate].
  destruct (steps_prop d) as [s|]; [|discriminate].
  destruct (truthy s); [|discriminate].
  destruct (gt_zero E (length_prop s)) as [[|]|] eqn:G; try discriminate.
  intros H; injection H as <-; exact G.
Qed.

Lemma gt_zero_number E (v : jsval) :
  gt_zero E v = Some true -> exists n, to_number E v = Some (Num n) /\ (0 < n)%Q.
Proof.
  unfold gt_zero; destruct (to_number E v) as [[|n]|]; try discriminate.
  intros H; injection H as H; exists n; split; [reflexivity | apply qlt_true; exact H].
Qed.

Lemma strict_eq_zero_number E (v : jsval) (n : Q) :
  strict_eq_zero v = true -> to_number E v = Some (Num n) -> (n == 0)%Q.
Proof.
  destruct v as [[| |q| | |]|]; simpl; try discriminate.
  intros H1 H2; injection H2 as <-; apply Qeq_bool_iff; exact H1.
Qed.

Lemma positive_not_zero E (v : jsval) (n : Q) :
  to_number E v = Some (Num n) -> (0 < n)%Q -> strict_eq_zero v = false.
Proof.
  intros H1 H2; destruct (strict_eq_zero v) eqn:Z0; [|reflexivity].
  pose proof (strict_eq_zero_number E v n Z0 H1); lra.
Qed.

Lemma lt_len_minus_one_spec E (i : Z) (len : jsval) :
  lt_len_minus_one E i len = Some true ->
  exists n, to_number E len = Some (Num n) /\ (inject_Z i < n - 1)%Q.
Proof.
  unfold lt_len_minus_one; destruct (to_number E len) as [[|n]|]; try discriminate.
  intros H; injection H as H; exists n; split; [reflexivity | apply qlt_true; exact H].
Qed.

Lemma eq_len_defined E (i : Z) (len : jsval) :
  to_number E len <> None -> exists b, eq_len_minus_one E i len = Some b.
Proof.
  unfold eq_len_minus_one; destruct (to_number E len) as [[|n]|]; intros H;
    [eexists; reflexivity | eexists; reflexivity | contradiction].
Qed.

(** When steps are loaded, their length converts, and the current step
    converts to a string, [updateRecipeStepUI] completes. *)
Lemma update_done E (st : state) :
  strict_eq_zero (length_prop st.(recipeSteps)) = false ->
  to_number E (length_prop st.(recipeSteps)) <> None ->
  converts E (index_at st.(recipeSteps) st.(currentStepIndex)) = true ->
  exists st', updateRecipeStepUI E st = Done st'.
Proof.
  intros Z0 Hn C; unfold updateRecipeStepUI; cbv zeta; rewrite Z0, C; cbn [negb].
  destruct (eq_len_defined E (currentStepIndex st) (length_prop (recipeSteps st)) Hn)
    as [b ->].
  unfold speak; cbn; destruct (speechSupported st); [rewrite C|]; eexists; reflexivity.
Qed.

(** When the current step does not convert, the assignment to
    [textContent] throws before anything is written. *)
Lemma update_threw E (st : state) :
  strict_eq_zero (length_prop st.(recipeSteps)) = false ->
  converts E (index_at st.(recipeSteps) st.(currentStepIndex)) = false ->
  updateRecipeStepUI E st = Threw (type_error E) st.
Proof.
  intros Z0 C; unfold updateRecipeStepUI; cbv zeta; rewrite Z0, C; reflexivity.
Qed.

Lemma finish_rejected E (r : fetch_result) (st : state) :
  match r with
  | FetchThrows _ => True
  | FetchParsed d => recipe_guard E d = None
  end ->
  exists m, getRecipe_finish E r st = showError m st.
Proof.
  destruct r as [e|d]; simpl; intros H.
  - exists (error_message e); reflexivity.
  - unfold recipe_guard in H; destruct (guard_outcome E d); try discriminate;
      eexists; reflexivity.
Qed.

(** A load that passes the guard: the state [updateRecipeStepUI] left,
    then the Recipe view or, if it threw, [showError]. *)
Lemma finish_accepted_frame E (d steps : json) (st : state) :
  recipe_guard E d = Some steps ->
  let st1 := set_step_index 0 (set_recipe_steps steps st) in
  let st2 := final (updateRecipeStepUI E st1) in
  let st' := getRecipe_finish E (FetchParsed d) st in
  same_session st2 st' /\
  st'.(spokenLog) = st2.(spokenLog) /\ st'.(speechQueue) = st2.(speechQueue) /\
  st'.(recipeStepText) = st2.(recipeStepText) /\
  st'.(prevStepBtnDisabled) = st2.(prevStepBtnDisabled) /\
  st'.(nextStepBtnDisabled) = st2.(nextStepBtnDisabled).
Proof.
  intros G st1 st2 st'; unfold st', st2; unfold getRecipe_finish.
  rewrite (recipe_guard_accept E d steps G); fold st1.
  destruct (updateRecipeStepUI E st1); cbn; frame.
Qed.

Lemma finish_accepted E (d steps : json) (st : state) :
  recipe_guard E d = Some steps ->
  let st' := getRecipe_finish E (FetchParsed d) st in
  st'.(recipeSteps) = steps /\ st'.(currentStepIndex) = 0 /\
  (converts E (index_at steps 0) = true -> shown_views st'.(view) = [VRecipe]) /\
  (converts E (index_at steps 0) = false -> shown_views st'.(view) = [VError]).
Proof.
  intros G st'.
  destruct (finish_accepted_frame E d steps st G) as ((H1 & H2 & _) & _).
  destruct (updateRecipeStepUI_session E (set_step_index 0 (set_recipe_steps steps st)))
    as (H3 & H4 & _).
  fold st' in H1, H2.
  split; [rewrite H1, H3; reflexivity|]. split; [rewrite H2, H4; reflexivity|].
  pose proof (guard_length_positive E d steps (recipe_guard_accept E d steps G)) as Gp.
  destruct (gt_zero_number E _ Gp) as (n & Hn & Hpos).
  assert (Z0 : strict_eq_zero (length_prop steps) = false)
    by exact (positive_not_zero E _ n Hn Hpos).
  assert (Hdef : to_number E (length_prop steps) <> None) by congruence.
  unfold st', getRecipe_finish; rewrite (recipe_guard_accept E d steps G).
  split; intros C.
  - destruct (update_done E (set_step_index 0 (set_recipe_steps steps st)) Z0 Hdef C)
      as [st2 ->].
    apply showView_shown.
  - rewrite (update_threw E (set_step_index 0 (set_recipe_steps steps st)) Z0 C).
    apply showError_shown.
Qed.

(** ** Reachable states *)

Lemma run_preserves (P : state -> Prop) E :
  (forall e st, P st -> P (step E e st)) ->
  forall es st, P st -> P (run E es st).
Proof.
  intros Hstep es; induction es as [|e es IH]; intros st Hst; simpl; auto.
Qed.

Lemma index_inv_frame E (st st' : state) :
  st'.(recipeSteps) = st.(recipeSteps) ->
  st'.(currentStepIndex) = st.(currentStepIndex) ->
  index_inv E st -> index_inv E st'.
Proof. unfold index_inv; intros -> -> H; exact H. Qed.

Lemma index_inv_session E (st st' : state) :
  same_session st st' -> index_inv E st -> index_inv E st'.
Proof. intros (H1 & H2 & _); apply index_inv_frame; assumption. Qed.

Lemma index_inv_defined E (st : state) :
  index_inv E st -> to_number E (length_prop st.(recipeSteps)) <> None.
Proof. intros (_ & nv & Hnv & _); congruence. Qed.

Lemma step_index_inv E e (st : state) :
  index_inv E st -> index_inv E (step E e st).
Proof.
  intros H; destruct e as [s| |r| | | | | |]; simpl.
  - revert H; apply index_inv_frame; reflexivity.
  - unfold handleFormSubmit; destruct (negb _); [|exact H].
    revert H; apply index_inv_frame; reflexivity.
  - destruct r as [ex|d]; [revert H; apply index_inv_frame; reflexivity|].
    destruct (recipe_guard E d) as [steps|] eqn:G.
    + destruct (finish_accepted E d steps st G) as (Hs & Hi & _).
      pose proof (guard_length_positive E d steps (recipe_guard_accept E d steps G)) as Gp.
      destruct (gt_zero_number E _ Gp) as (n & Hn & _).
      unfold index_inv; rewrite Hs, Hi; split; [lia|].
      exists (Num n); split; [exact Hn | left; reflexivity].
    + destruct (finish_rejected E (FetchParsed d) st G) as [m ->].
      revert H; apply index_inv_frame; reflexivity.
  - unfold handleNextStep.
    destruct (lt_len_minus_one E _ _) as [[|]|] eqn:Hlt; try exact H.
    apply lt_len_minus_one_spec in Hlt as (n & Hn & Hi).
    destruct H as [H0 _].
    eapply index_inv_session; [apply updateRecipeStepUI_session|].
    unfold index_inv; simpl; split; [lia|].
    exists (Num n); split; [exact Hn|right; exists n; split; [reflexivity|]].
    rewrite inject_Z_succ; lra.
  - unfold handlePrevStep.
    destruct (0 <? currentStepIndex st) eqn:Hp; [|exact H].
    apply Z.ltb_lt in Hp.
    eapply index_inv_session; [apply updateRecipeStepUI_session|].
    destruct H as [H0 (nv & Hnv & [Hz | (n & -> & Hi)])]; [lia|].
    unfold index_inv; simpl; split; [lia|].
    exists (Num n); split; [exact Hnv|right; exists n; split; [reflexivity|]].
    rewrite inject_Z_pred; lra.
  - eapply index_inv_session; [apply updateRecipeStepUI_session | exact H].
  - unfold handleStartOver, speech_cancel.
    destruct (speechSupported _); (split; [simpl; lia|]);
      exists (Num 0%Q); (split; [reflexivity | left; reflexivity]).
  - destruct (existsb _ _); [|exact H].
    revert H; apply index_inv_frame; reflexivity.
  - revert H; apply index_inv_frame; reflexivity.
Qed.

Lemma ui_inv_frame E (st st' : state) :
  st'.(recipeSteps) = st.(recipeSteps) ->
  st'.(currentStepIndex) = st.(currentStepIndex) ->
  st'.(recipeStepText) = st.(recipeStepText) ->
  st'.(prevStepBtnDisabled) = st.(prevStepBtnDisabled) ->
  st'.(nextStepBtnDisabled) = st.(nextStepBtnDisabled) ->
  ui_inv E st -> ui_inv E st'.
Proof.
  unfold ui_inv; intros -> -> -> -> -> H; exact H.
Qed.

Lemma updateRecipeStepUI_ui E (st : state) :
  to_number E (length_prop st.(recipeSteps)) <> None ->
  ui_inv E (final (updateRecipeStepUI E st)).
Proof.
  intros Hn.
  destruct (updateRecipeStepUI_session E st) as (Hs & Hi & _).
  unfold ui_inv; rewrite Hs, Hi; intros Z0 C.
  destruct (eq_len_defined E (currentStepIndex st) (length_prop (recipeSteps st)) Hn)
    as [b Hb].
  unfold updateRecipeStepUI; cbv zeta; rewrite Z0, C, Hb; cbn [negb].
  match goal with |- context [speak E ?t ?s] =>
    destruct (speak_frame E t s) as (_ & _ & _ & -> & -> & ->) end.
  split; [reflexivity | split; reflexivity].
Qed.

Lemma showView_ui E v (st : state) : ui_inv E st -> ui_inv E (showView v st).
Proof. apply ui_inv_frame; destruct v; reflexivity. Qed.

Lemma showError_ui E m (st : state) : ui_inv E st -> ui_inv E (showError m st).
Proof. apply ui_inv_frame; reflexivity. Qed.

Lemma step_ui E e (st : state) :
  index_inv E st -> ui_inv E st -> ui_inv E (step E e st).
Proof.
  intros Hinv H; destruct e as [s| |r| | | | | |]; simpl.
  - revert H; apply ui_inv_frame; reflexivity.
  - unfold handleFormSubmit; destruct (negb _); [|exact H].
    unfold getRecipe_start. revert H; apply ui_inv_frame; reflexivity.
  - destruct r as [ex|d]; [apply showError_ui; exact H|].
    destruct (recipe_guard E d) as [steps|] eqn:G.
    + destruct (finish_accepted_frame E d steps st G) as ((H1 & H2 & _) & _ & _ & H3 & H4 & H5).
      apply (ui_inv_frame E (final (updateRecipeStepUI E
               (set_step_index 0 (set_recipe_steps steps st)))));
        [exact H1 | exact H2 | exact H3 | exact H4 | exact H5|].
      apply updateRecipeStepUI_ui; simpl.
      pose proof (guard_length_positive E d steps (recipe_guard_accept E d steps G)) as Gp.
      destruct (gt_zero_number E _ Gp) as (n & Hn & _); congruence.
    + destruct (finish_rejected E (FetchParsed d) st G) as [m ->].
      apply showError_ui; exact H.
  - unfold handleNextStep.
    destruct (lt_len_minus_one E _ _) as [[|]|] eqn:Hlt; try exact H.
    apply updateRecipeStepUI_ui; simpl.
    apply lt_len_minus_one_spec in Hlt as (n & Hn & _); congruence.
  - unfold handlePrevStep; destruct (0 <? _); [|exact H].
    apply updateRecipeStepUI_ui; simpl; apply index_inv_defined; exact Hinv.
  - apply updateRecipeStepUI_ui; apply index_inv_defined; exact Hinv.
  - unfold handleStartOver, speech_cancel.
    destruct (speechSupported _); simpl; unfold ui_inv; simpl; discriminate.
  - destruct (existsb _ _); [|exact H].
    unfold tryAgainClick. revert H; apply ui_inv_frame; reflexivity.
  - revert H; apply ui_inv_frame; reflexivity.
Qed.

Lemma initial_index_inv E (m : markup) (sp : bool) :
  index_inv E (initialize true m sp).
Proof.
  split; [simpl; lia|]. exists (Num 0%Q); split; [reflexivity | left; reflexivity].
Qed.

Lemma reachable_inv E (m : markup) (sp : bool) (es : list event) :
  index_inv E (run E es (initialize true m sp)) /\ ui_inv E (run E es (initialize true m sp)).
Proof.
  apply (run_preserves (fun st => index_inv E st /\ ui_inv E st)).
  - intros e st [H1 H2]; split; [apply step_index_inv | apply step_ui]; assumption.
  - split; [apply initial_index_inv | unfold ui_inv; simpl; discriminate].
Qed.

Lemma reachable_index_inv E m sp es : index_inv E (run E es (initialize true m sp)).
Proof. apply reachable_inv. Qed.

Lemma reachable_ui E m sp es : ui_inv E (run E es (initialize true m sp)).
Proof. apply reachable_inv. Qed.

(** ** C1: the step index stays in range *)

Lemma next_at_last_noop E (st : state) :
  eq_len_minus_one E st.(currentStepIndex) (length_prop st.(recipeSteps)) = Some true ->
  handleNextStep E st = st.
Proof.
  unfold handleNextStep, lt_len_minus_one, eq_len_minus_one.
  destruct (to_number E _) as [[|n]|]; try discriminate.
  intros H; injection H as H; apply Qeq_bool_iff in H.
  destruct (qlt (inject_Z (currentStepIndex st)) (n - 1)) eqn:L; [|reflexivity].
  apply qlt_true in L; lra.
Qed.

(** C1 (amended): in every state reached from the initial page by any
    sequence of events, the index is non-negative, the length of
    [recipeSteps] converts to a number without throwing, and the index is
    0 or below that number. So the index lies within [0, length - 1]
    whenever the length is a positive integer (as for any array or string),
    and is 0 when the length is 0, negative or NaN; [next] at index
    [length - 1] and [previous] at index 0 change nothing. *)
Theorem step_index_in_range :
  forall (E : engine) (m : markup) (sp : bool) (es : list event),
    let st := run E es (initialize true m sp) in
    let len := to_number E (length_prop st.(recipeSteps)) in
    0 <= st.(currentStepIndex) /\
    len <> None /\
    (forall n, len = Some (Num n) -> (0 < n)%Q ->
       (inject_Z st.(currentStepIndex) < n)%Q) /\
    (forall n k, len = Some (Num n) -> (n == inject_Z k)%Q -> 0 < k ->
       0 <= st.(currentStepIndex) <= k - 1) /\
    (forall n, len = Some (Num n) -> (n <= 0)%Q -> st.(currentStepIndex) = 0) /\
    (len = Some NaN -> st.(currentStepIndex) = 0) /\
    (eq_len_minus_one E st.(currentStepIndex) (length_prop st.(recipeSteps)) = Some true ->
       handleNextStep E st = st) /\
    (st.(currentStepIndex) = 0 -> handlePrevStep E st = st).
Proof.
  intros E m sp es st len.
  pose proof (reachable_index_inv E m sp es) as Hinv; fold st in Hinv.
  destruct Hinv as [H0 (nv & Hnv & Hcase)]; fold len in Hnv.
  assert (Hlt : forall n, len = Some (Num n) -> st.(currentStepIndex) <> 0 ->
                  (inject_Z st.(currentStepIndex) < n)%Q).
  { intros n Hn Hz; destruct Hcase as [Hc | (n' & -> & Hi)]; [contradiction|].
    rewrite Hnv in Hn; injection Hn as <-; exact Hi. }
  pose proof (inject_Z_nonneg _ H0) as Hq.
  split; [exact H0|]. split; [congruence|].
  split; [|split; [|split; [|split; [|split]]]].
  - intros n Hn Hpos.
    destruct (Z.eq_dec st.(currentStepIndex) 0) as [Hz|Hz]; [|exact (Hlt n Hn Hz)].
    rewrite Hz; exact Hpos.
  - intros n k Hn Hk Hpos; split; [exact H0|].
    destruct (Z.eq_dec st.(currentStepIndex) 0) as [Hz|Hz]; [lia|].
    pose proof (Hlt n Hn Hz) as Hi; rewrite Hk, <- Zlt_Qlt in Hi; lia.
  - intros n Hn Hneg.
    destruct (Z.eq_dec st.(currentStepIndex) 0) as [Hz|Hz]; [exact Hz|].
    pose proof (Hlt n Hn Hz); lra.
  - intros Hn; destruct Hcase as [Hc | (n' & -> & _)]; [exact Hc|].
    rewrite Hnv in Hn; discriminate.
  - apply next_at_last_noop.
  - unfold handlePrevStep; intros ->; reflexivity.
Qed.

(** ** C10: blank submissions *)

Lemma drop_spaces_all (l : list ascii) :
  forallb is_js_space l = true -> drop_spaces l = [].
Proof.
  induction l as [|c l IH]; simpl; [reflexivity|].
  destruct (is_js_space c); simpl; [exact IH | discriminate].
Qed.

Lemma trim_blank (s : string) :
  forallb is_js_space (list_ascii_of_string s) = true -> trim s = "".
Proof.
  intros H; unfold trim; rewrite (drop_spaces_all _ H); reflexivity.
Qed.

(** C10: when the dish input holds only whitespace (or nothing), submitting
    the form issues no request and leaves the whole state as it was: views,
    steps, index, error container, speech and the request log. *)
Theorem submit_blank_noop :
  forall (st : state),
    forallb is_js_space (list_ascii_of_string st.(dishInputValue)) = true ->
    handleFormSubmit st = st.
Proof.
  intros st H; unfold handleFormSubmit; rewrite (trim_blank _ H); reflexivity.
Qed.

(** ** C9: [repeat] *)



(** ** C4: loading a non-empty steps array *)

Lemma guard_nonempty_array E (fields : list (string * json)) (items : list json) :
  lookup "steps" fields = Some (JArr items) -> items <> [] ->
  recipe_guard E (JObj fields) = Some (JArr items).
Proof.
  intros Hs Hne; unfold recipe_guard, guard_outcome; simpl; rewrite Hs; simpl.
  unfold gt_zero; simpl.
  destruct items as [|x items]; [contradiction|].
  rewrite qlt_intro; [reflexivity|].
  unfold Qlt; simpl; lia.
Qed.

(** C4 (amended): when the parsed response is an object whose [steps]
    field is a non-empty array, completing the request stores exactly that
    array as [recipeSteps] and sets the index to 0. The Recipe view is then
    the only visible view when the first step converts to a string (as any
    string does); when it does not (a parsed object with its own [toString]
    key, or an array holding one), the [TypeError] thrown by
    [recipeStepText.textContent = currentStep] reaches the [catch], and the
    Error view is the only visible view. *)
Theorem load_nonempty_sets_recipe :
  forall (E : engine) (st : state)
         (fields : list (string * json)) (items : list json),
    lookup "steps" fields = Some (JArr items) -> items <> [] ->
    let st' := getRecipe_finish E (FetchParsed (JObj fields)) st in
    st'.(recipeSteps) = JArr items /\ st'.(currentStepIndex) = 0 /\
    (converts E (nth_error items 0) = true -> shown_views st'.(view) = [VRecipe]) /\
    (converts E (nth_error items 0) = false -> shown_views st'.(view) = [VError]).
Proof.
  intros E st fields items Hs Hne st'.
  exact (finish_accepted E (JObj fields) (JArr items) st
           (guard_nonempty_array E fields items Hs Hne)).
Qed.

(** ** C3: rejected responses *)

Lemma guard_missing_or_empty E (fields : list (string * json)) :
  lookup "steps" fields = None \/ lookup "steps" fields = Some (JArr []) ->
  recipe_guard E (JObj fields) = None.
Proof.
  unfold recipe_guard, guard_outcome; simpl; intros [-> | ->]; reflexivity.
Qed.

Lemma guard_nonempty_string E (fields : list (string * json)) (s : string) :
  lookup "steps" fields = Some (JStr s) -> s <> "" ->
  recipe_guard E (JObj fields) = Some (JStr s).
Proof.
  intros Hs Hne; unfold recipe_guard, guard_outcome; simpl; rewrite Hs; simpl.
  destruct s as [|c s]; [contradiction|]; simpl.
  reflexivity.
Qed.

(** C3 (amended): a missing [steps] field or an empty [steps] array fails
    the guard; and every completion that throws, or whose parsed value fails
    the guard [recipeData && recipeData.steps && recipeData.steps.length > 0]
    (or throws while evaluating it), ends in the Error view through the same
    [showError] path as a thrown error, with [recipeSteps] and the index
    untouched. The guard does not check that [steps] is an array of
    strings: a non-empty string passes it, is stored as [recipeSteps], and
    opens the Recipe view. *)
Theorem rejected_response_shows_error :
  forall (E : engine),
    (forall fields : list (string * json),
       lookup "steps" fields = None \/ lookup "steps" fields = Some (JArr []) ->
       recipe_guard E (JObj fields) = None) /\
    (forall (r : fetch_result) (st : state),
       match r with
       | FetchThrows _ => True
       | FetchParsed d => recipe_guard E d = None
       end ->
       let st' := getRecipe_finish E r st in
       shown_views st'.(view) = [VError] /\
       st'.(recipeSteps) = st.(recipeSteps) /\
       st'.(currentStepIndex) = st.(currentStepIndex) /\
       exists e, st' = getRecipe_finish E (FetchThrows e) st) /\
    (forall (fields : list (string * json)) (s : string) (st : state),
       lookup "steps" fields = Some (JStr s) -> s <> "" ->
       let st' := getRecipe_finish E (FetchParsed (JObj fields)) st in
       recipe_guard E (JObj fields) = Some (JStr s) /\
       shown_views st'.(view) = [VRecipe] /\
       st'.(recipeSteps) = JStr s /\ st'.(currentStepIndex) = 0).
Proof.
  intros E; split; [apply guard_missing_or_empty|]. split.
  - intros r st Hr st'.
    destruct (finish_rejected E r st Hr) as [m Hm].
    unfold st'; rewrite Hm.
    split; [reflexivity|]. split; [reflexivity|]. split; [reflexivity|].
    exists (ThrownError m); reflexivity.
  - intros fields s st Hs Hne st'.
    pose proof (guard_nonempty_string E fields s Hs Hne) as G.
    destruct (finish_accepted E _ _ st G) as (H1 & H2 & H3 & _).
    split; [exact G|]. split; [|split; assumption].
    apply H3. destruct s as [|c s]; [contradiction | reflexivity].
Qed.

(** ** C2: a submission goes through Loading to exactly one of Recipe and Error *)

(** C2: submitting a dish name that is not blank after trimming shows the
    Loading view alone and issues one request for the trimmed name; when a
    request completes, whatever the state meanwhile, exactly one of Recipe
    and Error is visible: Recipe for an object whose [steps] is a non-empty
    array of strings, Error for a thrown error or parse failure, a missing
    or empty [steps], or any other value failing the guard. *)
Theorem fetch_ends_in_recipe_or_error :
  forall (E : engine) (st : state),
    trim st.(dishInputValue) <> "" ->
    shown_views (handleFormSubmit st).(view) = [VLoading] /\
    (handleFormSubmit st).(requestLog) = (st.(requestLog) ++ [trim st.(dishInputValue)])%list /\
    (forall (r : fetch_result) (st' : state),
       shown_views (getRecipe_finish E r st').(view) = [VRecipe] \/
       shown_views (getRecipe_finish E r st').(view) = [VError]) /\
    (forall (fields : list (string * json)) (items : list string) (st' : state),
       lookup "steps" fields = Some (JArr (map JStr items)) -> items <> [] ->
       shown_views (getRecipe_finish E (FetchParsed (JObj fields)) st').(view) = [VRecipe]) /\
    (forall (e : thrown) (st' : state),
       shown_views (getRecipe_finish E (FetchThrows e) st').(view) = [VError]) /\
    (forall (fields : list (string * json)) (st' : state),
       lookup "steps" fields = None \/ lookup "steps" fields = Some (JArr []) ->
       shown_views (getRecipe_finish E (FetchParsed (JObj fields)) st').(view) = [VError]) /\
    (forall (d : json) (st' : state),
       recipe_guard E d = None ->
       shown_views (getRecipe_finish E (FetchParsed d) st').(view) = [VError]).
Proof.
  intros E st Hne.
  assert (Hsub : handleFormSubmit st = getRecipe_start (trim (dishInputValue st)) st).
  { unfold handleFormSubmit.
    destruct (String.eqb (trim (dishInputValue st)) "") eqn:Eq.
    - apply String.eqb_eq in Eq; contradiction.
    - reflexivity. }
  assert (Hrej : forall r st', match r with
                               | FetchThrows _ => True
                               | FetchParsed d => recipe_guard E d = None
                               end ->
                 shown_views (getRecipe_finish E r st').(view) = [VError]).
  { intros r st' Hr; destruct (finish_rejected E r st' Hr) as [m ->].
    apply showError_shown. }
  rewrite Hsub; split; [reflexivity|]. split; [reflexivity|].
  split; [|split; [|split; [|split]]].
  - intros r st'. destruct r as [e|d].
    + right; apply (Hrej (FetchThrows e)); exact I.
    + destruct (recipe_guard E d) as [steps|] eqn:G.
      * destruct (finish_accepted E d steps st' G) as (_ & _ & H1 & H2).
        destruct (converts E (index_at steps 0));
          [left; apply H1 | right; apply H2]; reflexivity.
      * right; apply (Hrej (FetchParsed d)); exact G.
  - intros fields items st' Hs Hi.
    destruct items as [|x items]; [contradiction|].
    apply (finish_accepted E _ (JArr (map JStr (x :: items))) st').
    + apply guard_nonempty_array; [exact Hs | discriminate].
    + reflexivity.
  - intros e st'; apply (Hrej (FetchThrows e)); exact I.
  - intros fields st' Hf; apply (Hrej (FetchParsed (JObj fields))).
    apply guard_missing_or_empty; exact Hf.
  - intros d st' Hd; apply (Hrej (FetchParsed d)); exact Hd.
Qed.

(** ** C5: recovering from an error *)


(** ** C7: read-aloud *)

Lemma update_speech_supported E (st : state) :
  (final (updateRecipeStepUI E st)).(speechSupported) = st.(speechSupported).
Proof. apply (updateRecipeStepUI_session E st). Qed.

Lemma step_speech_supported E e (st : state) :
  (step E e st).(speechSupported) = st.(speechSupported).
Proof.
  destruct e as [s| |r| | | | | |]; simpl; try reflexivity.
  - unfold handleFormSubmit; destruct (negb _); reflexivity.
  - destruct r as [ex|d]; [reflexivity|].
    destruct (recipe_guard E d) as [steps|] eqn:G.
    + destruct (finish_accepted_frame E d steps st G) as ((_ & _ & _ & H & _) & _).
      rewrite H.
      destruct (updateRecipeStepUI_session E (set_step_index 0 (set_recipe_steps steps st)))
        as (_ & _ & _ & -> & _).
      reflexivity.
    + destruct (finish_rejected E (FetchParsed d) st G) as [m ->]; reflexivity.
  - unfold handleNextStep; destruct (lt_len_minus_one _ _ _) as [[|]|]; try reflexivity.
    etransitivity; [apply update_speech_supported | reflexivity].
  - unfold handlePrevStep; destruct (0 <? _); [|reflexivity].
    etransitivity; [apply update_speech_supported | reflexivity].
  - etransitivity; [apply update_speech_supported | reflexivity].
  - unfold handleStartOver, speech_cancel; cbn.
    destruct (speechSupported st) eqn:Es; cbn; rewrite ?Es; reflexivity.
  - destruct (existsb _ _); reflexivity.
Qed.

Lemma reachable_speech_supported E m sp es :
  (run E es (initialize true m sp)).(speechSupported) = sp.
Proof.
  apply (run_preserves (fun st => st.(speechSupported) = sp)); [|reflexivity].
  intros e st H; rewrite step_speech_supported; exact H.
Qed.

(** What [updateRecipeStepUI] hands to [speak] when steps are loaded and
    their length converts. *)
Lemma update_speaks E (st : state) :
  st.(speechSupported) = true ->
  strict_eq_zero (length_prop st.(recipeSteps)) = false ->
  to_number E (length_prop st.(recipeSteps)) <> None ->
  let cur := index_at st.(recipeSteps) st.(currentStepIndex) in
  let st' := final (updateRecipeStepUI E st) in
  (converts E cur = true ->
     st'.(spokenLog) = (st.(spokenLog) ++ [cur])%list /\ st'.(speechQueue) = [cur]) /\
  (converts E cur = false ->
     st'.(spokenLog) = st.(spokenLog) /\ st'.(speechQueue) = st.(speechQueue)).
Proof.
  intros Hs Z0 Hn cur st'; unfold st', cur; split; intros C.
  - destruct (eq_len_defined E (currentStepIndex st) (length_prop (recipeSteps st)) Hn)
      as [b Hb].
    unfold updateRecipeStepUI; cbv zeta; rewrite Z0, C, Hb; cbn [negb].
    unfold speak; cbn; rewrite Hs, C; split; reflexivity.
  - rewrite (update_threw E st Z0 C); split; reflexivity.
Qed.

Lemma updateRecipeStepUI_queue E (st : state) :
  (List.length st.(speechQueue) <= 1)%nat ->
  (List.length (final (updateRecipeStepUI E st)).(speechQueue) <= 1)%nat.
Proof.
  intros H; unfold updateRecipeStepUI; cbv zeta.
  destruct (strict_eq_zero _); [exact H|].
  destruct (converts E _) eqn:C; cbn [negb]; [|exact H].
  destruct (eq_len_minus_one E _ _); [|exact H].
  unfold speak; cbn; destruct (speechSupported st); cbn; [rewrite C; cbn; lia | exact H].
Qed.

Lemma step_queue E e (st : state) :
  (List.length st.(speechQueue) <= 1)%nat ->
  (List.length (step E e st).(speechQueue) <= 1)%nat.
Proof.
  intros H; destruct e as [s| |r| | | | | |]; simpl; try exact H.
  - unfold handleFormSubmit; destruct (negb _); exact H.
  - destruct r as [ex|d]; [exact H|].
    destruct (recipe_guard E d) as [steps|] eqn:G.
    + destruct (finish_accepted_frame E d steps st G) as (_ & _ & -> & _).
      apply updateRecipeStepUI_queue; exact H.
    + destruct (finish_rejected E (FetchParsed d) st G) as [m ->]; exact H.
  - unfold handleNextStep; destruct (lt_len_minus_one _ _ _) as [[|]|]; try exact H.
    apply updateRecipeStepUI_queue; exact H.
  - unfold handlePrevStep; destruct (0 <? _); [|exact H].
    apply updateRecipeStepUI_queue; exact H.
  - apply updateRecipeStepUI_queue; exact H.
  - unfold handleStartOver, speech_cancel; destruct (speechSupported _); simpl;
      [lia | exact H].
  - destruct (existsb _ _); exact H.
  - destruct (speechQueue st) as [|x [|y q]]; simpl in *; lia.
Qed.

Lemma reachable_queue E m sp es :
  (List.length (run E es (initialize true m sp)).(speechQueue) <= 1)%nat.
Proof.
  apply (run_preserves (fun st => (List.length st.(speechQueue) <= 1)%nat));
    [apply step_queue | simpl; lia].
Qed.

Lemma step_no_speech E e (st : state) :
  st.(speechSupported) = false ->
  st.(spokenLog) = [] /\ st.(speechQueue) = [] ->
  (step E e st).(spokenLog) = [] /\ (step E e st).(speechQueue) = [].
Proof.
  intros Hs [Hl Hq].
  assert (Hu : forall st0 : state, st0.(speechSupported) = false ->
            (final (updateRecipeStepUI E st0)).(spokenLog) = st0.(spokenLog) /\
            (final (updateRecipeStepUI E st0)).(speechQueue) = st0.(speechQueue)).
  { intros st0 H0; unfold updateRecipeStepUI; cbv zeta.
    destruct (strict_eq_zero _); [split; reflexivity|].
    destruct (converts E _); cbn [negb]; [|split; reflexivity].
    destruct (eq_len_minus_one E _ _); [|split; reflexivity].
    unfold speak; cbn; rewrite H0; split; reflexivity. }
  destruct e as [s| |r| | | | | |]; simpl; try (split; assumption).
  - unfold handleFormSubmit; destruct (negb _); split; assumption.
  - destruct r as [ex|d]; [split; assumption|].
    destruct (recipe_guard E d) as [steps|] eqn:G.
    + destruct (finish_accepted_frame E d steps st G) as (_ & -> & -> & _).
      destruct (Hu (set_step_index 0 (set_recipe_steps steps st)) Hs) as [-> ->].
      split; assumption.
    + destruct (finish_rejected E (FetchParsed d) st G) as [m ->]; split; assumption.
  - unfold handleNextStep; destruct (lt_len_minus_one _ _ _) as [[|]|];
      try (split; assumption).
    destruct (Hu (set_step_index (currentStepIndex st + 1) st) Hs) as [-> ->].
    split; assumption.
  - unfold handlePrevStep; destruct (0 <? _); [|split; assumption].
    destruct (Hu (set_step_index (currentStepIndex st - 1) st) Hs) as [-> ->].
    split; assumption.
  - unfold handleRepeatStep; destruct (Hu st Hs) as [-> ->]; split; assumption.
  - unfold handleStartOver, speech_cancel; cbn; rewrite Hs; cbn; split; assumption.
  - destruct (existsb _ _); split; assumption.
  - rewrite Hq; split; [assumption | reflexivity].
Qed.

Lemma no_speech_invariant E (m : markup) (es : list event) :
  (run E es (initialize true m false)).(spokenLog) = [] /\
  (run E es (initialize true m false)).(speechQueue) = [].
Proof.
  apply (run_preserves (fun st => st.(speechSupported) = false /\
                                   st.(spokenLog) = [] /\ st.(speechQueue) = []));
    [|repeat split].
  intros e st (Hs & H).
  split; [rewrite step_speech_supported; exact Hs | apply step_no_speech; assumption].
Qed.

(** C7 (amended): in a browser that provides [speechSynthesis], from every
    reachable state each successful transition (a load passing the guard, a
    [next] or [previous] away from the boundary, a [repeat] while steps are
    loaded) whose resulting step converts to a string hands exactly one
    utterance to [speak], the value at the resulting index, after
    cancelling what was queued, so the queue then holds just that
    utterance; when the resulting step does not convert, the transition
    throws before [speak] and reads nothing. The queue never holds more
    than one utterance; a [next] or [previous] at the boundary changes
    nothing and reads nothing. In a browser without [speechSynthesis]
    nothing is ever read aloud. *)
Theorem read_aloud_once_per_transition :
  forall (E : engine) (m : markup) (es : list event) (e : event),
    let st := run E es (initialize true m true) in
    let st' := step E e st in
    let cur' := index_at st'.(recipeSteps) st'.(currentStepIndex) in
    (successful E e st = true -> converts E cur' = true ->
       st'.(spokenLog) = (st.(spokenLog) ++ [cur'])%list /\
       st'.(speechQueue) = [cur']) /\
    (successful E e st = true -> converts E cur' = false ->
       st'.(spokenLog) = st.(spokenLog)) /\
    ((e = ClickNext \/ e = ClickPrev) -> successful E e st = false -> st' = st) /\
    (List.length st'.(speechQueue) <= 1)%nat /\
    (forall es' : list event, (run E es' (initialize true m false)).(spokenLog) = []).
Proof.
  intros E m es e st st' cur'.
  pose proof (reachable_speech_supported E m true es) as Hsup; fold st in Hsup.
  pose proof (reachable_index_inv E m true es) as Hinv; fold st in Hinv.
  (* The transition runs [updateRecipeStepUI] on a state [st1] whose steps
     and index are those of [st'], and [st'] keeps the speech fields it
     leaves. *)
  assert (Hsucc : successful E e st = true ->
    exists st1, st1.(speechSupported) = true /\
      st1.(spokenLog) = st.(spokenLog) /\
      strict_eq_zero (length_prop st1.(recipeSteps)) = false /\
      to_number E (length_prop st1.(recipeSteps)) <> None /\
      st1.(recipeSteps) = st'.(recipeSteps) /\
      st1.(currentStepIndex) = st'.(currentStepIndex) /\
      st'.(spokenLog) = (final (updateRecipeStepUI E st1)).(spokenLog) /\
      st'.(speechQueue) = (final (updateRecipeStepUI E st1)).(speechQueue)).
  { unfold st'; destruct e as [s| |r| | | | | |]; simpl; try discriminate.
    - destruct r as [ex|d]; [discriminate|].
      destruct (recipe_guard E d) as [steps|] eqn:G; [intros _|discriminate].
      set (st1 := set_step_index 0 (set_recipe_steps steps st)).
      destruct (finish_accepted_frame E d steps st G) as ((H1 & H2 & _) & H3 & H4 & _).
      fold st1 in H1, H2, H3, H4.
      destruct (updateRecipeStepUI_session E st1) as (H5 & H6 & _).
      pose proof (guard_length_positive E d steps (recipe_guard_accept E d steps G)) as Gp.
      destruct (gt_zero_number E _ Gp) as (n & Hn & Hpos).
      exists st1; repeat split; try assumption.
      + exact (positive_not_zero E _ n Hn Hpos).
      + simpl; congruence.
      + rewrite H1, H5; reflexivity.
      + rewrite H2, H6; reflexivity.
    - unfold handleNextStep.
      destruct (lt_len_minus_one E _ _) as [[|]|] eqn:Hlt'; intros Hs; try discriminate.
      apply lt_len_minus_one_spec in Hlt' as (n & Hn & Hi).
      set (st1 := set_step_index (currentStepIndex st + 1) st).
      destruct (updateRecipeStepUI_session E st1) as (H5 & H6 & _).
      destruct Hinv as [H0 _].
      pose proof (inject_Z_nonneg _ H0).
      exists st1; repeat split; try assumption.
      + apply (positive_not_zero E _ n Hn); simpl; lra.
      + simpl; congruence.
      + rewrite H5; reflexivity.
      + rewrite H6; reflexivity.
    - unfold handlePrevStep; intros Hp; rewrite Hp; apply Z.ltb_lt in Hp.
      set (st1 := set_step_index (currentStepIndex st - 1) st).
      destruct (updateRecipeStepUI_session E st1) as (H5 & H6 & _).
      destruct Hinv as [H0 (nv & Hnv & [Hz | (n & -> & Hi)])]; [lia|].
      pose proof (inject_Z_nonneg _ H0).
      assert (Hpos : (0 < n)%Q) by (rewrite Zlt_Qlt in Hp; change (inject_Z 0) with 0%Q in Hp; lra).
      exists st1; repeat split; try assumption.
      + exact (positive_not_zero E _ n Hnv Hpos).
      + simpl; congruence.
      + rewrite H5; reflexivity.
      + rewrite H6; reflexivity.
    - intros Hr; apply negb_true_iff in Hr.
      destruct (updateRecipeStepUI_session E st) as (H5 & H6 & _).
      unfold handleRepeatStep.
      exists st; repeat split; try assumption.
      + apply index_inv_defined; exact Hinv.
      + rewrite H5; reflexivity.
      + rewrite H6; reflexivity. }
  split; [|split; [|split; [|split]]].
  - intros Hs C.
    destruct (Hsucc Hs) as (st1 & S1 & L1 & Z1 & N1 & R1 & I1 & HL & HQ).
    unfold cur' in C |- *; rewrite <- R1, <- I1 in C |- *.
    destruct (update_speaks E st1 S1 Z1 N1) as [A _].
    destruct (A C) as [A1 A2].
    rewrite HL, HQ, A1, A2, L1; split; reflexivity.
  - intros Hs C.
    destruct (Hsucc Hs) as (st1 & S1 & L1 & Z1 & N1 & R1 & I1 & HL & HQ).
    unfold cur' in C; rewrite <- R1, <- I1 in C.
    destruct (update_speaks E st1 S1 Z1 N1) as [_ A].
    rewrite HL, (proj1 (A C)), L1; reflexivity.
  - intros [-> | ->]; unfold st'; simpl.
    + unfold handleNextStep.
      destruct (lt_len_minus_one E _ _) as [[|]|]; [discriminate | reflexivity | reflexivity].
    + unfold handlePrevStep; intros ->; reflexivity.
  - apply step_queue, reachable_queue.
  - intros es'; apply no_speech_invariant.
Qed.

(** ** C8: start over *)

(** With [speechSynthesis] available, [handleStartOver] shows the Input view
    alone with no steps and index 0, from any state. *)
Lemma start_over_with_speech :
  forall st : state, st.(speechSupported) = true ->
    shown_views (handleStartOver st).(view) = [VInput] /\
    (handleStartOver st).(recipeSteps) = JArr [] /\
    (handleStartOver st).(currentStepIndex) = 0.
Proof.
  intros st H; unfold handleStartOver, speech_cancel; cbn; rewrite H.
  split; [apply showView_shown | split; reflexivity].
Qed.

(** C8: in a browser without [speechSynthesis], loading a recipe and
    pressing "start over" clears the steps and the index but leaves the
    Recipe view visible: the unguarded [speechSynthesis.cancel()] throws
    before [showView('input')] runs. *)
Theorem start_over_without_speech_keeps_recipe_view :
  let st := run example_engine (load_events omelette ++ [ClickStartOver])
              (initialize true blank_page false) in
  shown_views st.(view) = [VRecipe] /\
  st.(recipeSteps) = JArr [] /\ st.(currentStepIndex) = 0.
Proof. split; [|split]; reflexivity. Qed.

(** ** Counterexamples *)

(** C1: a parsed [steps] object whose [length] is 2.5 passes the guard
    ([2.5 > 0]); [next] compares [0 < 1.5] and [1 < 1.5] and moves twice,
    so the index reaches 2, beyond [length - 1 = 1.5]. *)
Lemma fractional_length_overshoots :
  let st := run example_engine
              (load_events (JObj [("steps", JObj [("length", JNum (5 # 2))])])
                 ++ [ClickNext; ClickNext])
              (initialize true blank_page true) in
  to_number example_engine (length_prop st.(recipeSteps)) = Some (Num (5 # 2)) /\
  st.(currentStepIndex) = 2 /\
  ((5 # 2) - 1 < inject_Z st.(currentStepIndex))%Q.
Proof. split; [reflexivity | split; [reflexivity | vm_compute; reflexivity]]. Qed.

(** C3: a response whose [steps] is a non-empty string, not an array of
    strings, passes the guard and opens the Recipe view. *)
Lemma malformed_steps_string_loads :
  let st := run example_engine (load_events (JObj [("steps", JStr "Crack eggs")]))
              (initialize true blank_page true) in
  shown_views st.(view) = [VRecipe] /\ st.(recipeSteps) = JStr "Crack eggs".
Proof. split; reflexivity. Qed.

(** C4: a non-empty [steps] array whose first element is a parsed object
    with its own [toString] key: [recipeSteps] and the index are assigned,
    then [textContent = currentStep] throws a [TypeError] and the page ends
    on the Error view. *)
Lemma unconvertible_first_step_errors :
  let st := run example_engine
              (load_events (JObj [("steps", JArr [JObj [("toString", JNum 1)]])]))
              (initialize true blank_page true) in
  shown_views st.(view) = [VError] /\
  st.(recipeSteps) = JArr [JObj [("toString", JNum 1)]] /\
  st.(currentStepIndex) = 0.
Proof. split; [|split]; reflexivity. Qed.


(** C7: without [speechSynthesis], loading a recipe succeeds but nothing is
    read aloud. *)
Lemma load_without_speech_reads_nothing :
  let st := run example_engine (load_events omelette) (initialize true blank_page false) in
  shown_views st.(view) = [VRecipe] /\ st.(spokenLog) = [].
Proof. split; reflexivity. Qed.

(** ** Witnesses: the theorems at concrete inputs *)

Lemma step_index_in_range_witness :
  let st := run example_engine (load_events omelette ++ [ClickNext; ClickNext])
              (initialize true blank_page true) in
  to_number example_engine (length_prop st.(recipeSteps)) = Some (Num 3) /\
  0 <= st.(currentStepIndex) <= 2 /\ handleNextStep example_engine st = st.
Proof.
  intros st.
  assert (H3 : to_number example_engine (length_prop st.(recipeSteps)) = Some (Num 3))
    by reflexivity.
  destruct (step_index_in_range example_engine blank_page true
              (load_events omelette ++ [ClickNext; ClickNext]))
    as (_ & _ & _ & D & _ & _ & G & _).
  split; [exact H3|]. split.
  - apply (D 3%Q 3 H3); [reflexivity | lia].
  - apply G; reflexivity.
Defined.

Lemma submit_blank_noop_witness :
  let st := set_dish_input "   " (initialize true blank_page true) in
  forallb is_js_space (list_ascii_of_string st.(dishInputValue)) = true /\
  handleFormSubmit st = st.
Proof.
  intros st.
  assert (H : forallb is_js_space (list_ascii_of_string st.(dishInputValue)) = true)
    by reflexivity.
  split; [exact H | apply (submit_blank_noop st H)].
Defined.

Lemma load_nonempty_sets_recipe_witness :
  lookup "steps" [("steps", JArr [JStr "Crack eggs"; JStr "Whisk"])]
    = Some (JArr [JStr "Crack eggs"; JStr "Whisk"]) /\
  converts example_engine (nth_error [JStr "Crack eggs"; JStr "Whisk"] 0) = true /\
  shown_views (getRecipe_finish example_engine
     (FetchParsed (JObj [("steps", JArr [JStr "Crack eggs"; JStr "Whisk"])]))
     (initialize true blank_page true)).(view) = [VRecipe].
Proof.
  assert (H : lookup "steps" [("steps", JArr [JStr "Crack eggs"; JStr "Whisk"])]
                = Some (JArr [JStr "Crack eggs"; JStr "Whisk"])) by reflexivity.
  assert (C : converts example_engine (nth_error [JStr "Crack eggs"; JStr "Whisk"] 0) = true)
    by reflexivity.
  split; [exact H|]. split; [exact C|].
  destruct (load_nonempty_sets_recipe example_engine (initialize true blank_page true) _ _ H)
    as (_ & _ & R & _); [discriminate|].
  exact (R C).
Defined.

Lemma rejected_response_shows_error_witness :
  recipe_guard example_engine (JObj [("steps", JArr [])]) = None /\
  shown_views (getRecipe_finish example_engine
                 (FetchParsed (JObj [("steps", JArr [])]))
                 (initialize true blank_page true)).(view) = [VError] /\
  (getRecipe_finish example_engine (FetchParsed (JObj [("steps", JStr "Cook")]))
     (initialize true blank_page true)).(recipeSteps) = JStr "Cook".
Proof.
  destruct (rejected_response_shows_error example_engine) as (A & B & C).
  assert (H : recipe_guard example_engine (JObj [("steps", JArr [])]) = None)
    by (apply A; right; reflexivity).
  split; [exact H|]. split.
  - apply (B (FetchParsed (JObj [("steps", JArr [])])) (initialize true blank_page true) H).
  - apply (C [("steps", JStr "Cook")] "Cook" (initialize true blank_page true));
      [reflexivity | discriminate].
Defined.

Lemma fetch_ends_in_recipe_or_error_witness :
  let st := set_dish_input "omelette" (initialize true blank_page true) in
  trim st.(dishInputValue) <> "" /\
  shown_views (handleFormSubmit st).(view) = [VLoading] /\
  shown_views (getRecipe_finish example_engine (FetchParsed omelette) st).(view) = [VRecipe].
Proof.
  intros st.
  assert (H : trim st.(dishInputValue) <> "") by (vm_compute; discriminate).
  destruct (fetch_ends_in_recipe_or_error example_engine st H) as (A & _ & _ & B & _).
  split; [exact H|]. split; [exact A|].
  apply (B _ ["Crack eggs"; "Whisk"; "Cook"]); [reflexivity | discriminate].
Defined.


Lemma read_aloud_once_per_transition_witness :
  let st := run example_engine (load_events omelette) (initialize true blank_page true) in
  successful example_engine ClickNext st = true /\
  converts example_engine
    (index_at (step example_engine ClickNext st).(recipeSteps)
              (step example_engine ClickNext st).(currentStepIndex)) = true /\
  (step example_engine ClickNext st).(speechQueue) = [Some (JStr "Whisk")].
Proof.
  intros st.
  assert (H : successful example_engine ClickNext st = true) by reflexivity.
  assert (C : converts example_engine
                (index_at (step example_engine ClickNext st).(recipeSteps)
                          (step example_engine ClickNext st).(currentStepIndex)) = true)
    by reflexivity.
  split; [exact H|]. split; [exact C|].
  destruct (read_aloud_once_per_transition example_engine blank_page
              (load_events omelette) ClickNext) as (A & _).
  etransitivity; [exact (proj2 (A H C)) | reflexivity].
Defined.

(** ** Further properties of the program *)

Lemma eq_len_array E (i : Z) (items : list json) :
  eq_len_minus_one E i (length_prop (JArr items)) =
    Some (i =? Z.of_nat (List.length items) - 1).
Proof.
  change (Some (Qeq_bool (inject_Z i) (inject_Z (Z.of_nat (List.length items)) - 1)) =
          Some (i =? Z.of_nat (List.length items) - 1)).
  rewrite qeq_inject; reflexivity.
Qed.

Lemma lt_len_array E (i : Z) (items : list json) :
  lt_len_minus_one E i (length_prop (JArr items)) =
    Some (i <? Z.of_nat (List.length items) - 1).
Proof.
  change (Some (qlt (inject_Z i) (inject_Z (Z.of_nat (List.length items)) - 1)) =
          Some (i <? Z.of_nat (List.length items) - 1)).
  rewrite qlt_inject; reflexivity.
Qed.

Lemma nonempty_array_not_zero (x : json) (rest : list json) :
  strict_eq_zero (length_prop (JArr (x :: rest))) = false.
Proof.
  change (Qeq_bool (inject_Z (Z.of_nat (List.length (x :: rest)))) 0%Q = false).
  apply Bool.not_true_iff_false; intros H; apply Qeq_bool_iff in H.
  unfold Qeq in H; cbn [Qnum Qden inject_Z List.length] in H; lia.
Qed.

(** In every reachable state holding a non-empty array of steps that all
    convert to strings, the step text shows one of the array's elements,
    "previous" is disabled exactly at index 0 and "next" exactly at the
    last index. *)
Theorem reachable_array_step_display :
  forall (E : engine) (m : markup) (sp : bool) (es : list event) (items : list json),
    let st := run E es (initialize true m sp) in
    st.(recipeSteps) = JArr items -> items <> [] ->
    Forall (fun x => converts E (Some x) = true) items ->
    (exists s, st.(recipeStepText) = Some s /\ In s items) /\
    st.(prevStepBtnDisabled) = (st.(currentStepIndex) =? 0) /\
    st.(nextStepBtnDisabled) =
      (st.(currentStepIndex) =? Z.of_nat (List.length items) - 1).
Proof.
  intros E m sp es items st Hs Hne Hall.
  pose proof (reachable_ui E m sp es) as Hui; fold st in Hui.
  pose proof (reachable_index_inv E m sp es) as Hinv; fold st in Hinv.
  unfold ui_inv, index_inv in *. rewrite Hs in Hui, Hinv.
  destruct items as [|x rest]; [contradiction|].
  assert (Hlt : 0 <= currentStepIndex st < Z.of_nat (List.length (x :: rest))).
  { destruct Hinv as [H0 (nv & Hnv & [Hz | (n & -> & Hi)])]; [cbn [List.length]; lia|].
    change (Some (Num (inject_Z (Z.of_nat (List.length (x :: rest)))))
            = Some (Num n)) in Hnv.
    injection Hnv as <-. rewrite <- Zlt_Qlt in Hi.
    rewrite Zpos_P_of_succ_nat in Hi; cbn [List.length]; lia. }
  assert (Hget : exists s, nth_error (x :: rest) (Z.to_nat (currentStepIndex st)) = Some s).
  { destruct (nth_error (x :: rest) (Z.to_nat (currentStepIndex st))) as [s|] eqn:N;
      [exists s; reflexivity|].
    apply nth_error_None in N; lia. }
  destruct Hget as [s Hget].
  assert (Hat : index_at (JArr (x :: rest)) (currentStepIndex st) = Some s).
  { unfold index_at. replace (currentStepIndex st <? 0) with false
      by (symmetry; apply Z.ltb_ge; lia). exact Hget. }
  assert (C : converts E (index_at (JArr (x :: rest)) (currentStepIndex st)) = true).
  { rewrite Hat. rewrite Forall_forall in Hall. apply Hall, (nth_error_In _ _ Hget). }
  destruct (Hui (nonempty_array_not_zero x rest) C) as (Ht & Hp & Hn).
  split; [|split; [exact Hp|]].
  - exists s; split; [rewrite Ht; exact Hat | apply (nth_error_In _ _ Hget)].
  - rewrite eq_len_array in Hn; injection Hn as Hn; symmetry; exact Hn.
Qed.

(** [showError] always leaves exactly one paragraph and one "Try Again"
    button in the error container, whatever it held before; a second error
    replaces the first completely. *)
Theorem showError_replaces_content :
  forall (m m' : string) (st : state),
    (showError m st).(errorMessageChildren) =
      [EPara ("Oops! Something went wrong: " ++ m ++ "."); ETryAgain] /\
    showError m (showError m' st) = showError m st.
Proof. intros m m' st; split; reflexivity. Qed.

(** [initialize], whatever the markup: with an API key the page starts on
    the Input view alone, with no steps and index 0; without one it shows
    the Error view alone with the configuration message and a "Try Again"
    button. *)
Theorem initialize_views :
  forall (m : markup) (sp : bool),
    shown_views (initialize true m sp).(view) = [VInput] /\
    (initialize true m sp).(recipeSteps) = JArr [] /\
    (initialize true m sp).(currentStepIndex) = 0 /\
    shown_views (initialize false m sp).(view) = [VError] /\
    (initialize false m sp).(errorMessageChildren) =
      [EPara "Oops! Something went wrong: API_KEY is not configured.."; ETryAgain].
Proof. intros m sp; repeat split; reflexivity. Qed.

Lemma handleNextStep_index E (st : state) :
  lt_len_minus_one E st.(currentStepIndex) (length_prop st.(recipeSteps)) = Some true ->
  (handleNextStep E st).(currentStepIndex) = st.(currentStepIndex) + 1 /\
  (handleNextStep E st).(recipeSteps) = st.(recipeSteps).
Proof.
  unfold handleNextStep; intros ->.
  destruct (updateRecipeStepUI_session E (set_step_index (currentStepIndex st + 1) st))
    as (-> & -> & _).
  split; reflexivity.
Qed.

Lemma handlePrevStep_index E (st : state) :
  0 < st.(currentStepIndex) ->
  (handlePrevStep E st).(currentStepIndex) = st.(currentStepIndex) - 1 /\
  (handlePrevStep E st).(recipeSteps) = st.(recipeSteps).
Proof.
  unfold handlePrevStep; intros H; apply Z.ltb_lt in H; rewrite H.
  destruct (updateRecipeStepUI_session E (set_step_index (currentStepIndex st - 1) st))
    as (-> & -> & _).
  split; reflexivity.
Qed.

Lemma handleNextStep_stays E (st : state) :
  lt_len_minus_one E st.(currentStepIndex) (length_prop st.(recipeSteps)) <> Some true ->
  handleNextStep E st = st.
Proof.
  unfold handleNextStep; intros H.
  destruct (lt_len_minus_one E _ _) as [[|]|]; [contradiction | reflexivity | reflexivity].
Qed.

(** In every reachable state, a "next" that moves followed by "previous"
    returns to the same index, and a "previous" that moves followed by
    "next" does too; the steps stay the same throughout. *)
Theorem next_prev_round_trip :
  forall (E : engine) (m : markup) (sp : bool) (es : list event),
    let st := run E es (initialize true m sp) in
    (lt_len_minus_one E st.(currentStepIndex) (length_prop st.(recipeSteps)) = Some true ->
       (handlePrevStep E (handleNextStep E st)).(currentStepIndex) = st.(currentStepIndex) /\
       (handlePrevStep E (handleNextStep E st)).(recipeSteps) = st.(recipeSteps)) /\
    (0 < st.(currentStepIndex) ->
       (handleNextStep E (handlePrevStep E st)).(currentStepIndex) = st.(currentStepIndex) /\
       (handleNextStep E (handlePrevStep E st)).(recipeSteps) = st.(recipeSteps)).
Proof.
  intros E m sp es st.
  pose proof (reachable_index_inv E m sp es) as Hinv; fold st in Hinv.
  split.
  - intros Hlt. destruct (handleNextStep_index E st Hlt) as (H1 & H2).
    destruct Hinv as [H0 _].
    destruct (handlePrevStep_index E (handleNextStep E st)) as (H3 & H4); [lia|].
    rewrite H3, H4, H1, H2; split; [lia | reflexivity].
  - intros Hp. destruct (handlePrevStep_index E st Hp) as (H1 & H2).
    destruct Hinv as [_ (nv & Hnv & [Hz | (n & -> & Hi)])]; [lia|].
    destruct (handleNextStep_index E (handlePrevStep E st)) as (H3 & H4).
    + rewrite H1, H2; unfold lt_len_minus_one; rewrite Hnv.
      f_equal; apply qlt_intro; rewrite inject_Z_pred; lra.
    + rewrite H3, H4, H1, H2; split; [lia | reflexivity].
Qed.

(** Pressing "next" [k] times on an array of [n] steps from a valid index
    [i] lands on [min (i + k) (n - 1)]: it advances one step per press and
    then stays on the last step. The steps are never changed. *)
Theorem repeated_next_clamps :
  forall (E : engine) (k : nat) (st : state) (items : list json),
    st.(recipeSteps) = JArr items ->
    0 <= st.(currentStepIndex) <= Z.of_nat (List.length items) - 1 ->
    (run E (repeat ClickNext k) st).(currentStepIndex) =
      Z.min (st.(currentStepIndex) + Z.of_nat k) (Z.of_nat (List.length items) - 1) /\
    (run E (repeat ClickNext k) st).(recipeSteps) = JArr items.
Proof.
  intros E k; induction k as [|k IH]; intros st items Hs Hi; simpl.
  - split; [lia | exact Hs].
  - pose proof (lt_len_array E (currentStepIndex st) items) as Hlt; rewrite <- Hs in Hlt.
    destruct (currentStepIndex st <? Z.of_nat (List.length items) - 1) eqn:L.
    + destruct (handleNextStep_index E st Hlt) as (H1 & H2).
      apply Z.ltb_lt in L.
      destruct (IH (handleNextStep E st) items) as (H3 & H4);
        [rewrite H2; exact Hs | rewrite H1; lia |].
      rewrite H3, H1; split; [lia | exact H4].
    + rewrite (handleNextStep_stays E st) by (rewrite Hlt; discriminate).
      apply Z.ltb_ge in L.
      destruct (IH st items Hs Hi) as (H3 & H4).
      rewrite H3; split; [lia | exact H4].
Qed.

(** Pressing "previous" [k] times from a non-negative index [i] lands on
    [max (i - k) 0], leaving the steps unchanged. *)
Theorem repeated_prev_clamps :
  forall (E : engine) (k : nat) (st : state),
    0 <= st.(currentStepIndex) ->
    (run E (repeat ClickPrev k) st).(currentStepIndex) =
      Z.max (st.(currentStepIndex) - Z.of_nat k) 0 /\
    (run E (repeat ClickPrev k) st).(recipeSteps) = st.(recipeSteps).
Proof.
  intros E k; induction k as [|k IH]; intros st Hi; simpl.
  - split; [lia | reflexivity].
  - destruct (0 <? currentStepIndex st) eqn:Hp.
    + apply Z.ltb_lt in Hp.
      destruct (handlePrevStep_index E st Hp) as (H1 & H2).
      destruct (IH (handlePrevStep E st)) as (H3 & H4); [rewrite H1; lia|].
      rewrite H3, H4, H1, H2; split; [lia | reflexivity].
    + assert (Hst : handlePrevStep E st = st) by (unfold handlePrevStep; rewrite Hp; reflexivity).
      rewrite Hst. apply Z.ltb_ge in Hp.
      destruct (IH st Hi) as (H3 & H4).
      rewrite H3; split; [lia | exact H4].
Qed.

(** [handleStartOver] always clears the steps, the index and the dish
    input, also when [speechSynthesis.cancel()] throws; with speech
    available it also empties the speech queue. *)
Theorem start_over_clears_session :
  forall st : state,
    (handleStartOver st).(recipeSteps) = JArr [] /\
    (handleStartOver st).(currentStepIndex) = 0 /\
    (handleStartOver st).(dishInputValue) = "" /\
    (st.(speechSupported) = true -> (handleStartOver st).(speechQueue) = []).
Proof.
  intros st; unfold handleStartOver, speech_cancel; cbn.
  destruct (speechSupported st); cbn; repeat split; try reflexivity; discriminate.
Qed.

Lemma start_over_empty (st : state) :
  (handleStartOver st).(recipeSteps) = JArr [] /\ (handleStartOver st).(currentStepIndex) = 0.
Proof.
  unfold handleStartOver, speech_cancel; cbn.
  destruct (speechSupported st); split; reflexivity.
Qed.

(** After "start over", the recipe controls are inert: "next", "previous"
    and "repeat" change nothing and read nothing aloud. *)
Theorem controls_inert_after_start_over :
  forall (E : engine) (st : state),
    let st' := handleStartOver st in
    handleNextStep E st' = st' /\ handlePrevStep E st' = st' /\
    handleRepeatStep E st' = st'.
Proof.
  intros E st st'.
  destruct (start_over_empty st) as (Hs & Hi).
  fold st' in Hs, Hi.
  unfold handleNextStep, handlePrevStep, handleRepeatStep, updateRecipeStepUI,
    lt_len_minus_one.
  rewrite Hs, Hi; split; [|split]; reflexivity.
Qed.

Lemma drop_spaces_suffix (l : list ascii) : exists p, l = (p ++ drop_spaces l)%list.
Proof.
  induction l as [|c l [p Hp]]; simpl; [exists []; reflexivity|].
  destruct (is_js_space c); [exists (c :: p); simpl; rewrite <- Hp; reflexivity|].
  exists []; reflexivity.
Qed.

Lemma drop_spaces_head (l : list ascii) (c : ascii) (r : list ascii) :
  drop_spaces l = c :: r -> is_js_space c = false.
Proof.
  induction l as [|d l IH]; simpl; [discriminate|].
  destruct (is_js_space d) eqn:Ed; [exact IH|].
  intros H; injection H as <- _; exact Ed.
Qed.

Lemma drop_spaces_fix (l : list ascii) :
  (forall c r, l = c :: r -> is_js_space c = false) -> drop_spaces l = l.
Proof.
  destruct l as [|c r]; intros H; [reflexivity|]; simpl.
  rewrite (H c r eq_refl); reflexivity.
Qed.

Lemma drop_spaces_idem (l : list ascii) : drop_spaces (drop_spaces l) = drop_spaces l.
Proof. apply drop_spaces_fix; intros c r H; exact (drop_spaces_head l c r H). Qed.

Lemma trim_idem (s : string) : trim (trim s) = trim s.
Proof.
  unfold trim at 1 2.
  rewrite list_ascii_of_string_of_list_ascii.
  set (a := drop_spaces (list_ascii_of_string s)).
  set (b := drop_spaces (rev a)).
  assert (Hb : drop_spaces (rev b) = rev b).
  { apply drop_spaces_fix; intros c r Hcr.
    destruct (drop_spaces_suffix (rev a)) as [p Hp]; fold b in Hp.
    assert (Ha : a = (rev b ++ rev p)%list).
    { rewrite <- (rev_involutive a), Hp, rev_app_distr; reflexivity. }
    rewrite Hcr in Ha; simpl in Ha.
    apply (drop_spaces_head (list_ascii_of_string s) c (r ++ rev p)%list); exact Ha. }
  rewrite Hb, rev_involutive. unfold b; rewrite drop_spaces_idem; reflexivity.
Qed.

(** The dish name a submission requests is the trimmed input: it is not
    empty, and it has no leading or trailing whitespace left to strip. *)
Theorem submitted_name_is_trimmed :
  forall (st : state) (name : string),
    (handleFormSubmit st).(requestLog) = (st.(requestLog) ++ [name])%list ->
    name <> "" /\ trim name = name /\ name = trim st.(dishInputValue).
Proof.
  intros st name; unfold handleFormSubmit.
  destruct (String.eqb (trim (dishInputValue st)) "") eqn:Eq; cbn [negb].
  - intros H. apply (f_equal (@List.length string)) in H.
    rewrite length_app in H; cbn [List.length] in H; lia.
  - intros H. change ((requestLog st ++ [trim (dishInputValue st)])%list =
                      (requestLog st ++ [name])%list) in H.
    apply app_inv_head in H; injection H as <-.
    split; [|split; [apply trim_idem | reflexivity]].
    intros Hn; rewrite Hn in Eq; discriminate.
Qed.




(** In a browser without [speechSynthesis], nothing is ever read aloud or
    queued, whatever the user does. *)
Theorem no_speech_never_speaks :
  forall (E : engine) (m : markup) (es : list event),
    (run E es (initialize true m false)).(spokenLog) = [] /\
    (run E es (initialize true m false)).(speechQueue) = [].
Proof. intros E m es; apply no_speech_invariant. Qed.

(** Only two events ever change the loaded steps: a completed request whose
    response passes the guard, which stores its [steps] value, and
    "start over". *)
Theorem steps_change_only_by_load_or_start_over :
  forall (E : engine) (e : event) (st : state),
    (step E e st).(recipeSteps) <> st.(recipeSteps) ->
    e = ClickStartOver \/
    exists d steps, e = FetchDone (FetchParsed d) /\ recipe_guard E d = Some steps /\
                    (step E e st).(recipeSteps) = steps.
Proof.
  intros E e st Hne.
  destruct e as [s| |r| | | | | |]; simpl in Hne |- *;
    try (exfalso; apply Hne; reflexivity).
  - exfalso; apply Hne; unfold handleFormSubmit; destruct (negb _); reflexivity.
  - destruct r as [ex|d]; [exfalso; apply Hne; reflexivity|].
    destruct (recipe_guard E d) as [steps|] eqn:G.
    + right; exists d, steps; split; [reflexivity|split; [exact G|]].
      apply (finish_accepted E d steps st G).
    + exfalso; apply Hne.
      destruct (finish_rejected E (FetchParsed d) st G) as [m ->]; reflexivity.
  - exfalso; apply Hne; unfold handleNextStep; destruct (lt_len_minus_one _ _ _) as [[|]|];
      [exact (proj1 (updateRecipeStepUI_session E
                       (set_step_index (currentStepIndex st + 1) st)))
      | reflexivity | reflexivity].
  - exfalso; apply Hne; unfold handlePrevStep; destruct (0 <? _);
      [exact (proj1 (updateRecipeStepUI_session E
                       (set_step_index (currentStepIndex st - 1) st)))
      | reflexivity].
  - exfalso; apply Hne; exact (proj1 (updateRecipeStepUI_session E st)).
  - left; reflexivity.
  - exfalso; apply Hne; destruct (existsb _ _); reflexivity.
Qed.

(** ** Witnesses for the further properties *)

Lemma reachable_array_step_display_witness :
  let st := run example_engine (load_events omelette ++ [ClickNext]) (initialize true blank_page true) in
  st.(recipeSteps) = JArr [JStr "Crack eggs"; JStr "Whisk"; JStr "Cook"] /\
  Forall (fun x => converts example_engine (Some x) = true)
    [JStr "Crack eggs"; JStr "Whisk"; JStr "Cook"] /\
  st.(nextStepBtnDisabled) = false.
Proof.
  intros st.
  assert (H : st.(recipeSteps) = JArr [JStr "Crack eggs"; JStr "Whisk"; JStr "Cook"])
    by reflexivity.
  assert (F : Forall (fun x => converts example_engine (Some x) = true)
                [JStr "Crack eggs"; JStr "Whisk"; JStr "Cook"])
    by (repeat constructor).
  split; [exact H|]. split; [exact F|].
  destruct (reachable_array_step_display example_engine blank_page true
              (load_events omelette ++ [ClickNext]) _ H) as (_ & _ & Hn);
    [discriminate | exact F |].
  etransitivity; [exact Hn | reflexivity].
Defined.

Lemma next_prev_round_trip_witness :
  let st := run example_engine (load_events omelette) (initialize true blank_page true) in
  lt_len_minus_one example_engine st.(currentStepIndex) (length_prop st.(recipeSteps))
    = Some true /\
  (handlePrevStep example_engine (handleNextStep example_engine st)).(currentStepIndex) = 0.
Proof.
  intros st.
  assert (H : lt_len_minus_one example_engine st.(currentStepIndex)
                (length_prop st.(recipeSteps)) = Some true) by reflexivity.
  split; [exact H|].
  destruct (next_prev_round_trip example_engine blank_page true (load_events omelette))
    as (A & _).
  etransitivity; [exact (proj1 (A H)) | reflexivity].
Defined.

Lemma repeated_next_clamps_witness :
  let st := run example_engine (load_events omelette) (initialize true blank_page true) in
  st.(recipeSteps) = JArr [JStr "Crack eggs"; JStr "Whisk"; JStr "Cook"] /\
  (run example_engine (repeat ClickNext 5) st).(currentStepIndex) = 2.
Proof.
  intros st.
  assert (H : st.(recipeSteps) = JArr [JStr "Crack eggs"; JStr "Whisk"; JStr "Cook"])
    by reflexivity.
  split; [exact H|].
  destruct (repeated_next_clamps example_engine 5 st _ H) as (A & _);
    [vm_compute; split; discriminate|].
  rewrite A; reflexivity.
Defined.

Lemma repeated_prev_clamps_witness :
  let st := run example_engine (load_events omelette ++ [ClickNext; ClickNext])
              (initialize true blank_page true) in
  0 <= st.(currentStepIndex) /\
  (run example_engine (repeat ClickPrev 1) st).(currentStepIndex) = 1.
Proof.
  intros st.
  assert (H : 0 <= st.(currentStepIndex)) by (vm_compute; discriminate).
  split; [exact H|].
  destruct (repeated_prev_clamps example_engine 1 st H) as (A & _).
  rewrite A; reflexivity.
Defined.

Lemma start_over_clears_session_witness :
  let st := run example_engine (load_events omelette) (initialize true blank_page true) in
  st.(speechSupported) = true /\ (handleStartOver st).(speechQueue) = [].
Proof.
  intros st.
  assert (H : st.(speechSupported) = true) by reflexivity.
  split; [exact H|].
  destruct (start_over_clears_session st) as (_ & _ & _ & D).
  exact (D H).
Defined.

Lemma submitted_name_is_trimmed_witness :
  let st := set_dish_input "  omelette " (initialize true blank_page true) in
  (handleFormSubmit st).(requestLog) = (st.(requestLog) ++ ["omelette"])%list /\
  trim "omelette" = "omelette".
Proof.
  intros st.
  assert (H : (handleFormSubmit st).(requestLog) = (st.(requestLog) ++ ["omelette"])%list)
    by reflexivity.
  split; [exact H | exact (proj1 (proj2 (submitted_name_is_trimmed st "omelette" H)))].
Defined.

Lemma steps_change_only_by_load_or_start_over_witness :
  let st := run example_engine (load_events omelette) (initialize true blank_page true) in
  (step example_engine ClickStartOver st).(recipeSteps) <> st.(recipeSteps) /\
  (ClickStartOver = ClickStartOver \/
   exists d steps, ClickStartOver = FetchDone (FetchParsed d) /\
     recipe_guard example_engine d = Some steps /\
     (step example_engine ClickStartOver st).(recipeSteps) = steps).
Proof.
  intros st.
  assert (H : (step example_engine ClickStartOver st).(recipeSteps) <> st.(recipeSteps))
    by (vm_compute; discriminate).
  split; [exact H | exact (steps_change_only_by_load_or_start_over example_engine _ st H)].
Defined.
